(** * OpenVault data utilities: branch pruning of the memory store

    A shallow embedding of [pruneMemoriesForBranch] from
    [src/utils/data.js] and the properties of the reconciliation pass.

    Modelling conventions.
    - Message indices are integer-valued JavaScript numbers: [Z].  The
      chat length is the [length] of an array: [nat], injected into [Z]
      where the code compares it with an index.
    - A field the code tests with [typeof x === 'number'] is a [jsval]
      (a JSON scalar); a field the code tests for presence only
      ([x || []], [if (x)], [x && Array.isArray(x)]) is an [option].
    - A JavaScript object used as a dictionary keyed by strings is a
      [gmap string _]; the [Set] of pruned ids is a [gset string].
    - The store is a persisted JSON document, a tree: objects are
      modelled by value, and the in-place mutation of the code becomes
      a function from the store to the updated store and the report.
    - [log] only writes to the console; the pruning pass is modelled
      without its log lines. *)

From Stdlib Require Import ZArith Lia List.
From stdpp Require Import gmap strings list fin_maps.

Local Open Scope Z_scope.

(** ** JSON scalars *)

Inductive jsval : Type :=
  | JUndefined
  | JNull
  | JBool (b : bool)
  | JNumber (n : Z)
  | JString (s : string).

(** ** The store (the object under [METADATA_KEY]) *)

Record memory : Type := Memory {
  id : string;
  summary : string;
  message_ids : option (list Z)
}.

Record emotion_range : Type := EmotionRange {
  min : option Z;
  max : option Z
}.

Record character_state : Type := CharacterState {
  known_events : option (list string);
  emotion_from_messages : option emotion_range
}.

(** [note] stands for the other fields of a history entry, which the
    code never reads. *)
Record history_entry : Type := HistoryEntry {
  message_id : jsval;
  note : string
}.

Record relationship : Type := Relationship {
  last_updated_message_id : jsval;
  history : option (list history_entry)
}.

Record store : Type := Store {
  memories : option (list memory);
  characters : option (gmap string character_state);
  relationships : option (gmap string relationship);
  last_processed_message_id : jsval
}.

Record report : Type := Report {
  prunedMemories : nat;
  prunedCharacterEvents : nat;
  prunedRelationships : nat
}.

Definition zero_report : report := Report 0 0 0.

(** ** Comparisons of the code *)

(** [typeof v === 'number' && v >= chatLength] *)
Definition number_ge (v : jsval) (chatLength : nat) : bool :=
  match v with
  | JNumber n => n >=? Z.of_nat chatLength
  | _ => false
  end.

(** [v >= chatLength] for a destructured [min] or [max]: an absent field
    is [undefined], which compares false with every number. *)
Definition field_ge (v : option Z) (chatLength : nat) : bool :=
  match v with
  | Some n => n >=? Z.of_nat chatLength
  | None => false
  end.

(** [chatLength > 0 ? chatLength - 1 : -1] *)
Definition last_valid (chatLength : nat) : Z :=
  if 0 <? Z.of_nat chatLength then Z.of_nat chatLength - 1 else -1.

(** ** The memory scan (the first loop) *)

(** [(memory.message_ids || []).some(id => id >= chatLength)] *)
Definition hasInvalidMessageId (chatLength : nat) (m : memory) : bool :=
  let messageIds := default [] (message_ids m) in
  existsb (fun i => i >=? Z.of_nat chatLength) messageIds.

Record scan : Type := Scan {
  validMemories : list memory;
  prunedMemoryIds : gset string;
  scanned_pruned : nat
}.

Definition scan_start : scan := Scan [] ∅ 0.

Definition scan_step (chatLength : nat) (s : scan) (m : memory) : scan :=
  if hasInvalidMessageId chatLength m
  then Scan (validMemories s) ({[ id m ]} ∪ prunedMemoryIds s) (S (scanned_pruned s))
  else Scan (validMemories s ++ [m]) (prunedMemoryIds s) (scanned_pruned s).

Definition scan_memories (chatLength : nat) (ms : list memory) : scan :=
  fold_left (scan_step chatLength) ms scan_start.

(** ** Character states (the second loop) *)

(** The [known_events] part of the loop body: the new state and
    [removed]. *)
Definition prune_known_events (pruned : gset string) (state : character_state)
  : character_state * nat :=
  match known_events state with
  | Some events =>
      let originalLength := length events in
      let events' := filter (fun eventId => eventId ∉ pruned) events in
      (CharacterState (Some events') (emotion_from_messages state),
       (originalLength - length events')%nat)
  | None => (state, 0%nat)
  end.

(** The [emotion_from_messages] part of the loop body. *)
Definition clamp_emotion (chatLength : nat) (state : character_state)
  : character_state :=
  match emotion_from_messages state with
  | Some e =>
      if field_ge (max e) chatLength then
        if field_ge (min e) chatLength
        then CharacterState (known_events state) None
        else CharacterState (known_events state)
               (Some (EmotionRange (min e) (Some (Z.of_nat chatLength - 1))))
      else state
  | None => state
  end.

Definition clean_state (pruned : gset string) (chatLength : nat)
    (state : character_state) : character_state :=
  clamp_emotion chatLength (prune_known_events pruned state).1.

Definition character_step (pruned : gset string) (chatLength : nat)
    (charName : string) (state : character_state)
    (acc : gmap string character_state * nat)
  : gmap string character_state * nat :=
  let '(state1, removed) := prune_known_events pruned state in
  let state2 := clamp_emotion chatLength state1 in
  (<[charName := state2]> acc.1,
   if (0 <? removed)%nat then (acc.2 + removed)%nat else acc.2).

Definition clean_characters (pruned : gset string) (chatLength : nat)
    (characterStates : gmap string character_state)
  : gmap string character_state * nat :=
  map_fold (character_step pruned chatLength) (∅, 0%nat) characterStates.

(** ** Relationships (the third loop) *)

(** [typeof h.message_id !== 'number' || h.message_id < chatLength] *)
Definition keep_history_entry (chatLength : nat) (h : history_entry) : bool :=
  match message_id h with
  | JNumber n => n <? Z.of_nat chatLength
  | _ => true
  end.

Definition reset_cursor (chatLength : nat) (v : jsval) : jsval :=
  if number_ge v chatLength then JNumber (last_valid chatLength) else v.

Definition filter_history (chatLength : nat) (h : option (list history_entry))
  : option (list history_entry) :=
  match h with
  | Some entries => Some (filter (fun e => keep_history_entry chatLength e) entries)
  | None => None
  end.

Definition clean_relationship (chatLength : nat) (r : relationship) : relationship :=
  Relationship (reset_cursor chatLength (last_updated_message_id r))
               (filter_history chatLength (history r)).

Definition relationship_step (chatLength : nat)
    (key : string) (r : relationship) (acc : gmap string relationship * nat)
  : gmap string relationship * nat :=
  (<[key := clean_relationship chatLength r]> acc.1,
   if number_ge (last_updated_message_id r) chatLength then S acc.2 else acc.2).

Definition clean_relationships (chatLength : nat)
    (rels : gmap string relationship) : gmap string relationship * nat :=
  map_fold (relationship_step chatLength) (∅, 0%nat) rels.

(** ** [pruneMemoriesForBranch]

    The source reads its two inputs from the host: [chatLength] is
    [(context?.chat || []).length] and [data] is the object returned by
    [getOpenVaultData()].  They are the arguments here; the store after
    the call is returned with the report. *)

(** A loop over [Object.entries(x || {})]: an absent dictionary has no
    entries and stays absent. *)
Definition over_entries {A} (f : gmap string A → gmap string A * nat)
    (o : option (gmap string A)) : option (gmap string A) * nat :=
  match o with
  | Some m => (Some (f m).1, (f m).2)
  | None => (None, 0%nat)
  end.

Definition pruneMemoriesForBranch (chatLength : nat) (data : store)
  : store * report :=
  let mems := default [] (memories data) in
  if (chatLength =? 0)%nat || (length mems =? 0)%nat then (data, zero_report)
  else
    let s := scan_memories chatLength mems in
    let memories' :=
      if (0 <? scanned_pruned s)%nat then Some (validMemories s)
      else memories data in
    let '(characters', prunedEvents) :=
      over_entries (clean_characters (prunedMemoryIds s) chatLength)
                   (characters data) in
    let '(relationships', prunedRels) :=
      over_entries (clean_relationships chatLength) (relationships data) in
    let cursor' := reset_cursor chatLength (last_processed_message_id data) in
    (Store memories' characters' relationships' cursor',
     Report (scanned_pruned s) prunedEvents prunedRels).

(** The store after the call, and the report. *)
Definition reconciled (chatLength : nat) (data : store) : store :=
  (pruneMemoriesForBranch chatLength data).1.

Definition pruneReport (chatLength : nat) (data : store) : report :=
  (pruneMemoriesForBranch chatLength data).2.

(** ** Derived forms used by the statements *)

Definition events_removed (P : gset string) (L : nat)
    (o : option (gmap string character_state)) : nat :=
  (over_entries (clean_characters P L) o).2.

Definition cursors_reset (L : nat) (o : option (gmap string relationship)) : nat :=
  (over_entries (clean_relationships L) o).2.

(** Every value of a dictionary that may be absent, rewritten by [f]. *)
Definition each_value {A B} (f : A → B) (o : option (gmap string A))
  : option (gmap string B) :=
  fmap (M := gmap string) f <$> o.

(** The store with another memory collection. *)
Definition with_memories (ms : option (list memory)) (data : store) : store :=
  Store ms (characters data) (relationships data) (last_processed_message_id data).

(** ** Vocabulary of the statements *)

(** The scan prunes the memory. *)
Definition invalid (L : nat) (m : memory) : Prop := hasInvalidMessageId L m = true.

#[global] Instance invalid_dec L m : Decision (invalid L m).
Proof. unfold invalid. apply _. Defined.

(** The relationship loop counts the entry. *)
Definition cursor_beyond (L : nat) (kr : string * relationship) : Prop :=
  number_ge (last_updated_message_id kr.2) L = true.

#[global] Instance cursor_beyond_dec L kr : Decision (cursor_beyond L kr).
Proof. unfold cursor_beyond. apply _. Defined.

(** Some message id of the memory is at or beyond position [L]. *)
Definition out_of_range (L : nat) (m : memory) : Prop :=
  ∃ i, i ∈ default [] (message_ids m) ∧ Z.of_nat L ≤ i.

#[global] Instance out_of_range_dec L m : Decision (out_of_range L m).
Proof.
  refine (cast_if (decide (Exists (λ i, Z.of_nat L ≤ i) (default [] (message_ids m)))));
    unfold out_of_range; rewrite Exists_exists in *; done.
Defined.

(** The value is a number at or beyond position [L]. *)
Definition numeric_beyond (L : nat) (v : jsval) : Prop :=
  ∃ n, v = JNumber n ∧ Z.of_nat L ≤ n.

#[global] Instance numeric_beyond_dec L v : Decision (numeric_beyond L v).
Proof.
  refine (match v with
          | JNumber n => cast_if (decide (Z.of_nat L ≤ n))
          | _ => right _
          end); unfold numeric_beyond;
    first [ by eauto | by intros (? & [= <-] & ?) | by intros (? & ? & ?) ].
Defined.

(** ** Message positions in range

    The five kinds of numeric message position a store holds. *)

Definition memories_in_range (L : nat) (data : store) : Prop :=
  ∀ ms m ids i, memories data = Some ms → m ∈ ms →
    message_ids m = Some ids → i ∈ ids → i < Z.of_nat L.

Definition emotions_in_range (L : nat) (data : store) : Prop :=
  ∀ cs name st e mx, characters data = Some cs → cs !! name = Some st →
    emotion_from_messages st = Some e → max e = Some mx → mx < Z.of_nat L.

Definition relationship_cursors_in_range (L : nat) (data : store) : Prop :=
  ∀ rs key r n, relationships data = Some rs → rs !! key = Some r →
    last_updated_message_id r = JNumber n → n < Z.of_nat L.

Definition histories_in_range (L : nat) (data : store) : Prop :=
  ∀ rs key r hs h n, relationships data = Some rs → rs !! key = Some r →
    history r = Some hs → h ∈ hs → message_id h = JNumber n → n < Z.of_nat L.

Definition cursor_in_range (L : nat) (data : store) : Prop :=
  ∀ n, last_processed_message_id data = JNumber n → n < Z.of_nat L.

(** ** Stores used as examples *)

(** The end-to-end scenario of the documentation. *)
Definition scenario : store :=
  Store (Some [Memory "a" "first" (Some [0; 1]); Memory "b" "second" (Some [2; 9])])
        (Some {[ "Alice" := CharacterState (Some ["a"; "b"]) None ]})
        (Some {[ "Alice-Bob" := Relationship (JNumber 9) None ]})
        (JNumber 9).

Definition two_memories : store :=
  Store (Some [Memory "m1" "spans 0 and 5" (Some [0; 5]);
               Memory "m2" "spans 0 to 4" (Some [0; 4])])
        None None JUndefined.

Definition sparse_memories : store :=
  Store (Some [Memory "old" "beyond the branch" (Some [7]);
               Memory "bare" "no message ids" None])
        None None (JNumber 1).

Definition cursor_ten : store :=
  Store (Some [Memory "a" "first" (Some [0])]) (Some ∅) (Some ∅) (JNumber 10).

Definition dangling : store :=
  Store (Some [Memory "a" "first" (Some [0])])
        (Some {[ "Alice" := CharacterState (Some ["ghost"]) None ]})
        (Some ∅) (JNumber 0).

Definition moody : store :=
  Store (Some [Memory "a" "first" (Some [0])])
        (Some {[ "Alice" := CharacterState None
                              (Some (EmotionRange (Some 3) (Some 7))) ]})
        None (JNumber 0).

Definition gossip : store :=
  Store (Some [Memory "a" "first" (Some [0])]) None
        (Some {[ "Alice-Bob" :=
                   Relationship JUndefined
                     (Some [HistoryEntry (JNumber 7) "quarrel";
                            HistoryEntry JUndefined "met";
                            HistoryEntry (JNumber 1) "truce"]) ]})
        (JNumber 1).

(** ** The ids the scan prunes, as a set *)

Definition pruned_ids (L : nat) (ms : list memory) : gset string :=
  list_to_set (id <$> filter (out_of_range L) ms).

(** What the loop body leaves in [emotion_from_messages], as a function
    of what it finds there. *)
Definition clamp_range (L : nat) (o : option emotion_range) : option emotion_range :=
  emotion_from_messages (clamp_emotion L (CharacterState None o)).

(** Every emotion range that has both bounds has them in order. *)
Definition emotions_ordered (data : store) : Prop :=
  ∀ cs name st e mn mx, characters data = Some cs → cs !! name = Some st →
    emotion_from_messages st = Some e → min e = Some mn → max e = Some mx →
    mn ≤ mx.

(** * The host side of [data.js]

    [getDeps()] gives the host: [getContext()] returns the context
    object or [null]; [console], [saveChatConditional] and [showToast]
    act on the outside, and their calls are recorded as a list of
    [effect]s.  The context is taken to be the same object for the
    whole of one call. *)

(** [v] in a boolean position: [!v], [v || w]. *)
Definition truthy (v : jsval) : bool :=
  match v with
  | JUndefined | JNull => false
  | JBool b => b
  | JNumber n => negb (n =? 0)
  | JString EmptyString => false
  | JString _ => true
  end.

(** [a || b] *)
Definition js_or (a b : jsval) : jsval := if truthy a then a else b.

#[global] Instance jsval_eq_dec : EqDecision jsval.
Proof. solve_decision. Defined.

(** [context.chat_metadata], read for its [chat_id] only. *)
Record chat_info : Type := ChatInfo {
  chat_id : jsval
}.

(** [context.chatMetadata]: the entry under [METADATA_KEY], absent or
    falsy ([None]) or the store, and the entries under the other keys. *)
Record metadata : Type := Metadata {
  openvault : option store;
  other_keys : gmap string jsval
}.

Record context : Type := Context {
  chat : option (list string);
  chatId : jsval;
  chat_metadata : option chat_info;
  chatMetadata : option metadata
}.

Inductive warning : Type :=
  | NoContext
  | ChatChanged (expected current : jsval).

#[global] Instance warning_eq_dec : EqDecision warning.
Proof. solve_decision. Defined.

Inductive effect : Type :=
  | ConsoleWarn (w : warning)
  | ConsoleLog (message : string)
  | ConsoleError (message : string)
  | SaveChatConditional
  | ShowToast (kind message : string).

#[global] Instance effect_eq_dec : EqDecision effect.
Proof. solve_decision. Defined.

(** [log(message)]: written to the console in debug mode only. *)
Definition log (debugMode : bool) (message : string) : list effect :=
  if debugMode then [ConsoleLog ("[OpenVault] " +:+ message)] else [].

(** The object [getOpenVaultData] stores when there is none. *)
Definition default_store : store :=
  Store (Some []) (Some ∅) (Some ∅) (JNumber (-1)).

(** [context.chatMetadata[METADATA_KEY] = data] *)
Definition set_openvault (data : store) (c : context) : context :=
  Context (chat c) (chatId c) (chat_metadata c)
          (Some (Metadata (Some data)
                          (from_option other_keys ∅ (chatMetadata c)))).

(** [getOpenVaultData()]: the context after the call, the returned
    object ([None] for [null]) and the console output. *)
Definition getOpenVaultData (ctx : option context)
  : option context * option store * list effect :=
  match ctx with
  | None => (None, None, [ConsoleWarn NoContext])
  | Some c =>
      let md := default (Metadata None ∅) (chatMetadata c) in
      let data := default default_store (openvault md) in
      (Some (Context (chat c) (chatId c) (chat_metadata c)
                     (Some (Metadata (Some data) (other_keys md)))),
       Some data, [])
  end.

(** [context?.chatId || context?.chat_metadata?.chat_id || null] *)
Definition getCurrentChatId (ctx : option context) : jsval :=
  js_or (js_or (from_option chatId JUndefined ctx)
               (from_option chat_id JUndefined (ctx ≫= chat_metadata)))
        JNull.

(** [saveOpenVaultData(expectedChatId = null)].  [outcome] is what
    awaiting [saveChatConditional()] gives: [None] when it resolves,
    [Some message] when it rejects with an error of that message. *)
Definition saveOpenVaultData (ctx : option context) (debugMode : bool)
    (expectedChatId : jsval) (outcome : option string) : bool * list effect :=
  let expected := match expectedChatId with JUndefined => JNull | v => v end in
  let currentId := getCurrentChatId ctx in
  if bool_decide (expected ≠ JNull) && bool_decide (currentId ≠ expected)
  then (false, [ConsoleWarn (ChatChanged expected currentId)])
  else
    match outcome with
    | None => (true, SaveChatConditional :: log debugMode "Data saved to chat metadata")
    | Some message =>
        (false, [SaveChatConditional;
                 ConsoleError ("[OpenVault] Failed to save data: " +:+ message);
                 ShowToast "error" ("Failed to save data: " +:+ message)])
    end.

(** [pruneMemoriesForBranch()] as the source has it, without arguments:
    the chat length and the store are read from the context, and the
    store it prunes is the object held by the context. *)
Definition pruneMemoriesForBranch_ctx (ctx : option context)
  : option context * report * list effect :=
  let chatLength := length (default [] (ctx ≫= chat)) in
  match getOpenVaultData ctx with
  | (ctx', None, out) => (ctx', zero_report, out)
  | (ctx', Some data, out) =>
      let '(data', rep) := pruneMemoriesForBranch chatLength data in
      (set_openvault data' <$> ctx', rep, out)
  end.

(** The effect is a call of [showToast]. *)
Definition is_toast (e : effect) : Prop :=
  match e with ShowToast _ _ => True | _ => False end.

#[global] Instance is_toast_dec e : Decision (is_toast e).
Proof. destruct e; simpl; apply _. Defined.

(** The store a context holds. *)
Definition store_of (ctx : option context) : option store :=
  match ctx with
  | Some c => match chatMetadata c with Some md => openvault md | None => None end
  | None => None
  end.

(** A store consistent with a chat of two messages. *)
Definition settled : store :=
  Store (Some [Memory "a" "first" (Some [0; 1])])
        (Some {[ "Alice" := CharacterState (Some ["a"])
                              (Some (EmotionRange (Some 0) (Some 1))) ]})
        (Some {[ "Alice-Bob" :=
                   Relationship (JNumber 1)
                     (Some [HistoryEntry (JNumber 0) "met"]) ]})
        (JNumber 1).

(** ** Contexts used as examples *)

Definition fresh_context : context :=
  Context (Some ["hello"; "hi"]) (JString "chat-1") None None.

Definition scenario_context : context :=
  Context (Some ["m0"; "m1"; "m2"]) (JString "chat-1")
          (Some (ChatInfo (JString "legacy")))
          (Some (Metadata (Some scenario) {[ "note" := JString "kept" ]})).

(** * Properties *)

(** ** The scenario of the documentation, run *)

Example scenario_run :
  pruneMemoriesForBranch 3 scenario =
  (Store (Some [Memory "a" "first" (Some [0; 1])])
         (Some {[ "Alice" := CharacterState (Some ["a"]) None ]})
         (Some {[ "Alice-Bob" := Relationship (JNumber 2) None ]})
         (JNumber 2),
   Report 1 1 1).
Proof. vm_compute. reflexivity. Qed.

(** ** Lists and comparisons *)

Lemma filter_same_length {A} (P : A → Prop) `{!∀ x, Decision (P x)} (l : list A) :
  length (filter P l) = length l → filter P l = l.
Proof.
  induction l as [|x l IH]; [done|].
  rewrite filter_cons. destruct (decide (P x)); simpl; intros Hlen.
  - f_equal. apply IH. lia.
  - pose proof (length_filter P l). lia.
Qed.

Lemma filter_all {A} (P : A → Prop) `{!∀ x, Decision (P x)} (l : list A) :
  (∀ x, x ∈ l → P x) → filter P l = l.
Proof.
  induction l as [|x l IH]; intros Hall; [done|].
  rewrite filter_cons_True by (apply Hall; left).
  f_equal. apply IH. intros y Hy. apply Hall. by right.
Qed.

Lemma filter_none {A} (P : A → Prop) `{!∀ x, Decision (P x)} (l : list A) :
  (∀ x, x ∈ l → ¬ P x) → filter P l = [].
Proof.
  induction l as [|x l IH]; intros Hnone; [done|].
  rewrite filter_cons_False by (apply Hnone; left).
  apply IH. intros y Hy. apply Hnone. by right.
Qed.

Lemma length_filter_split {A} (P : A → Prop) `{!∀ x, Decision (P x)} (l : list A) :
  (length (filter P l) + length (filter (λ x, ¬ P x) l))%nat = length l.
Proof.
  induction l as [|x l IH]; [done|].
  rewrite !filter_cons. destruct (decide (P x)), (decide (¬ P x)); simpl; try lia; tauto.
Qed.

Lemma number_ge_spec v L :
  number_ge v L = true ↔ ∃ n, v = JNumber n ∧ Z.of_nat L ≤ n.
Proof.
  destruct v; simpl; try (split; [done | by intros (? & ? & ?)]).
  rewrite Z.geb_le. split; [eauto | by intros (? & [= ->] & ?)].
Qed.

Lemma field_ge_spec v L :
  field_ge v L = true ↔ ∃ n, v = Some n ∧ Z.of_nat L ≤ n.
Proof.
  destruct v; simpl; [|split; [done | by intros (? & ? & ?)]].
  rewrite Z.geb_le. split; [eauto | by intros (? & [= ->] & ?)].
Qed.

Lemma last_valid_lt L : (0 < L)%nat → last_valid L = Z.of_nat L - 1.
Proof. intros HL. unfold last_valid. destruct (Z.ltb_spec 0 (Z.of_nat L)); lia. Qed.

Lemma last_valid_zero : last_valid 0 = -1.
Proof. reflexivity. Qed.

Lemma hasInvalidMessageId_spec L m :
  hasInvalidMessageId L m = true ↔
  ∃ i, i ∈ default [] (message_ids m) ∧ Z.of_nat L ≤ i.
Proof.
  unfold hasInvalidMessageId. rewrite existsb_exists.
  setoid_rewrite Z.geb_le. setoid_rewrite <- list_elem_of_In. done.
Qed.

(** ** The memory scan is a stable partition *)

Section Scan.
Variable L : nat.

Lemma scan_fold ms s :
  let s' := fold_left (scan_step L) ms s in
  validMemories s' = validMemories s ++ filter (λ m, ¬ invalid L m) ms ∧
  scanned_pruned s' = (scanned_pruned s + length (filter (invalid L) ms))%nat ∧
  ∀ x, x ∈ prunedMemoryIds s' ↔
       x ∈ prunedMemoryIds s ∨ ∃ m, m ∈ ms ∧ invalid L m ∧ id m = x.
Proof.
  revert s. induction ms as [|m ms IH]; intros s; simpl.
  - rewrite app_nil_r. split_and!; [done | lia |].
    intros x. split; [by left|]. intros [?|(m & Hm & _)]; [done|].
    by apply elem_of_nil in Hm.
  - destruct (IH (scan_step L s m)) as (Hv & Hc & Hi).
    rewrite Hv, Hc. rewrite !filter_cons.
    destruct (decide (invalid L m)) as [Hm|Hm].
    + rewrite decide_False by tauto.
      assert (Hs : scan_step L s m =
        Scan (validMemories s) ({[ id m ]} ∪ prunedMemoryIds s) (S (scanned_pruned s))).
      { unfold scan_step. by rewrite Hm. }
      rewrite Hs in *. simpl. split_and!; [done | lia |].
      intros x. rewrite Hi. simpl.
      rewrite elem_of_union, elem_of_singleton.
      setoid_rewrite elem_of_cons. split.
      * intros [[-> | Hx] | (m0 & Hin & Hinv & Hid)];
          [right; exists m; auto | by left | right; exists m0; auto].
      * intros [Hx | (m0 & [-> | Hin] & Hinv & Hid)];
          [left; by right | left; by left | right; eauto].
    + rewrite decide_True by done.
      assert (Hs : scan_step L s m =
        Scan (validMemories s ++ [m]) (prunedMemoryIds s) (scanned_pruned s)).
      { unfold scan_step, invalid in *. by destruct (hasInvalidMessageId L m). }
      rewrite Hs in *. simpl.
      split_and!; [by rewrite <- app_assoc | done |].
      intros x. rewrite Hi. simpl.
      setoid_rewrite elem_of_cons. split.
      * intros [Hx | (m0 & Hin & Hinv & Hid)]; [by left | right; exists m0; auto].
      * intros [Hx | (m0 & [-> | Hin] & Hinv & Hid)];
          [by left | done | right; eauto].
Qed.

Lemma scan_valid ms :
  validMemories (scan_memories L ms) = filter (λ m, ¬ invalid L m) ms.
Proof. apply (scan_fold ms scan_start). Qed.

Lemma scan_count ms :
  scanned_pruned (scan_memories L ms) = length (filter (invalid L) ms).
Proof. apply (scan_fold ms scan_start). Qed.

Lemma scan_ids ms x :
  x ∈ prunedMemoryIds (scan_memories L ms) ↔
  ∃ m, m ∈ ms ∧ invalid L m ∧ id m = x.
Proof.
  destruct (scan_fold ms scan_start) as (_ & _ & Hi).
  unfold scan_memories. rewrite Hi. simpl. split; [|by right].
  intros [Hx|Hm]; [|done]. by apply not_elem_of_empty in Hx.
Qed.

(** Nothing pruned: the scanned list is its own valid part. *)
Lemma scan_nothing ms :
  scanned_pruned (scan_memories L ms) = 0%nat →
  filter (λ m, ¬ invalid L m) ms = ms.
Proof.
  rewrite scan_count. intros H0. apply filter_same_length.
  pose proof (length_filter_split (invalid L) ms). lia.
Qed.

Lemma scan_of_valid ms :
  (∀ m, m ∈ ms → ¬ invalid L m) →
  scan_memories L ms = Scan ms ∅ 0.
Proof.
  intros Hall.
  pose proof (scan_valid ms) as Hv. pose proof (scan_count ms) as Hc.
  assert (Hids : prunedMemoryIds (scan_memories L ms) = ∅).
  { apply leibniz_equiv. intros x. rewrite scan_ids. split; [|set_solver].
    intros (m & Hm & Hinv & _). by destruct (Hall m Hm). }
  rewrite filter_all in Hv by done. rewrite filter_none in Hc by (intros m Hm Hinv; by apply (Hall m)).
  destruct (scan_memories L ms); simpl in *. by subst.
Qed.
End Scan.

(** ** The loop over the character states *)

Lemma prune_known_events_removed P st :
  (prune_known_events P st).2 = 0%nat →
  (prune_known_events P st).1 = st.
Proof.
  unfold prune_known_events. destruct st as [[events|] emo]; simpl; [|done].
  intros Hlen. f_equal. f_equal. apply filter_same_length.
  pose proof (length_filter (λ e, e ∉ P) events). lia.
Qed.

Lemma prune_known_events_empty st :
  prune_known_events ∅ st = (st, 0%nat).
Proof.
  unfold prune_known_events. destruct st as [[events|] emo]; simpl; [|done].
  rewrite filter_all by set_solver. f_equal. lia.
Qed.

Lemma prune_known_events_emotion P st :
  emotion_from_messages (prune_known_events P st).1 = emotion_from_messages st.
Proof. unfold prune_known_events. by destruct (known_events st). Qed.

Lemma clamp_emotion_known_events L st :
  known_events (clamp_emotion L st) = known_events st.
Proof.
  unfold clamp_emotion. destruct (emotion_from_messages st) as [e|]; [|done].
  by destruct (field_ge (max e) L), (field_ge (min e) L).
Qed.

Lemma field_ge_last L : (0 < L)%nat → field_ge (Some (Z.of_nat L - 1)) L = false.
Proof. intros _. simpl. destruct (Z.geb_spec (Z.of_nat L - 1) (Z.of_nat L)); [lia | done]. Qed.

Lemma clamp_emotion_idem L st :
  (0 < L)%nat → clamp_emotion L (clamp_emotion L st) = clamp_emotion L st.
Proof.
  intros HL. unfold clamp_emotion.
  destruct (emotion_from_messages st) as [e|] eqn:He; [|by rewrite He].
  destruct (field_ge (max e) L) eqn:Hmax; [|by rewrite He, Hmax].
  destruct (field_ge (min e) L) eqn:Hmin;
    cbn [emotion_from_messages max min known_events]; [done|].
  by rewrite field_ge_last.
Qed.

Lemma clean_state_empty_idem P L st :
  (0 < L)%nat → clean_state ∅ L (clean_state P L st) = clean_state P L st.
Proof.
  intros HL. unfold clean_state at 1. rewrite prune_known_events_empty. simpl.
  unfold clean_state. by apply clamp_emotion_idem.
Qed.

Lemma clean_state_unchanged P L st :
  (prune_known_events P st).2 = 0%nat →
  field_ge (emotion_from_messages st ≫= max) L = false →
  clean_state P L st = st.
Proof.
  intros Hrem Hmax. unfold clean_state.
  rewrite (prune_known_events_removed _ _ Hrem). unfold clamp_emotion.
  destruct (emotion_from_messages st) as [e|]; [|done]. simpl in Hmax.
  by rewrite Hmax.
Qed.

Lemma clean_characters_spec P L (cs : gmap string character_state) :
  (clean_characters P L cs).1 = clean_state P L <$> cs ∧
  ((clean_characters P L cs).2 = 0%nat ↔
   ∀ k st, cs !! k = Some st → (prune_known_events P st).2 = 0%nat).
Proof.
  unfold clean_characters.
  apply (map_fold_weak_ind (λ r (m : gmap string character_state),
    r.1 = clean_state P L <$> m ∧
    (r.2 = 0%nat ↔ ∀ k st, m !! k = Some st → (prune_known_events P st).2 = 0%nat))).
  - split; [by rewrite fmap_empty|]. split; [|done].
    intros _ k st. by rewrite lookup_empty.
  - intros i x m [acc n] Hi [IH1 IH2]. simpl in IH1, IH2.
    unfold character_step.
    destruct (prune_known_events P x) as [st1 removed] eqn:E. simpl. split.
    + rewrite fmap_insert, IH1. unfold clean_state. by rewrite E.
    + destruct (Nat.ltb_spec 0 removed) as [Hpos|Hzero].
      * split; [lia|]. intros Hall.
        specialize (Hall i x (lookup_insert_eq _ _ _)). rewrite E in Hall.
        simpl in Hall. lia.
      * rewrite IH2. split.
        -- intros Hall k st. rewrite lookup_insert. case_decide.
           ++ intros [= <-]. rewrite E. simpl. lia.
           ++ apply Hall.
        -- intros Hall k st Hk. apply (Hall k). rewrite lookup_insert_ne; [done|].
           intros ->. congruence.
Qed.

(** ** The loop over the relationships *)

Lemma clean_relationships_spec L (rs : gmap string relationship) :
  (clean_relationships L rs).1 = clean_relationship L <$> rs ∧
  (clean_relationships L rs).2 = size (filter (cursor_beyond L) rs).
Proof.
  unfold clean_relationships.
  apply (map_fold_weak_ind (λ r (m : gmap string relationship),
    r.1 = clean_relationship L <$> m ∧ r.2 = size (filter (cursor_beyond L) m))).
  - split; [by rewrite fmap_empty|]. by rewrite map_filter_empty, map_size_empty.
  - intros i x m [acc n] Hi [IH1 IH2]. simpl in IH1, IH2.
    unfold relationship_step. simpl. split; [by rewrite fmap_insert, IH1|].
    destruct (number_ge (last_updated_message_id x) L) eqn:Hx.
    + rewrite map_filter_insert_True by done.
      rewrite map_size_insert_None; [by rewrite IH2|].
      apply map_lookup_filter_None. by left.
    + rewrite map_filter_insert_False by (unfold cursor_beyond; simpl; congruence).
      by rewrite delete_id.
Qed.

Lemma number_ge_reset L v : (0 < L)%nat → number_ge (reset_cursor L v) L = false.
Proof.
  intros HL. unfold reset_cursor. destruct (number_ge v L) eqn:Hv; [|done].
  simpl. rewrite last_valid_lt by done.
  destruct (Z.geb_spec (Z.of_nat L - 1) (Z.of_nat L)); [lia | done].
Qed.

Lemma reset_cursor_idem L v :
  (0 < L)%nat → reset_cursor L (reset_cursor L v) = reset_cursor L v.
Proof. intros HL. unfold reset_cursor at 1. by rewrite number_ge_reset. Qed.

Lemma filter_history_idem L h :
  filter_history L (filter_history L h) = filter_history L h.
Proof.
  destruct h as [entries|]; [|done]. simpl. f_equal.
  apply filter_all. intros e He. by apply list_elem_of_filter in He as [? _].
Qed.

Lemma clean_relationship_idem L r :
  (0 < L)%nat → clean_relationship L (clean_relationship L r) = clean_relationship L r.
Proof.
  intros HL. unfold clean_relationship. simpl.
  by rewrite reset_cursor_idem, filter_history_idem.
Qed.

(** ** Closed forms of [pruneMemoriesForBranch] *)

Lemma over_characters P L o :
  (over_entries (clean_characters P L) o).1 = each_value (clean_state P L) o.
Proof.
  destruct o as [cs|]; [|done]. simpl.
  by rewrite (proj1 (clean_characters_spec P L cs)).
Qed.

Lemma over_relationships L o :
  (over_entries (clean_relationships L) o).1 = each_value (clean_relationship L) o.
Proof.
  destruct o as [rs|]; [|done]. simpl.
  by rewrite (proj1 (clean_relationships_spec L rs)).
Qed.

Lemma events_removed_zero P L o :
  events_removed P L o = 0%nat ↔
  ∀ cs k st, o = Some cs → cs !! k = Some st → (prune_known_events P st).2 = 0%nat.
Proof.
  unfold events_removed. destruct o as [cs|]; simpl.
  - rewrite (proj2 (clean_characters_spec P L cs)). split.
    + intros H cs' k st [= <-]. apply H.
    + intros H k st. by apply H.
  - split; [by intros _ ? ? ? [=] | done].
Qed.

Lemma cursors_reset_count L o :
  cursors_reset L o = from_option (λ rs, size (filter (cursor_beyond L) rs)) 0%nat o.
Proof.
  unfold cursors_reset. destruct o as [rs|]; [|done]. simpl.
  apply (clean_relationships_spec L rs).
Qed.

Lemma cursors_reset_zero L o :
  cursors_reset L o = 0%nat ↔
  ∀ rs k r, o = Some rs → rs !! k = Some r →
            number_ge (last_updated_message_id r) L = false.
Proof.
  rewrite cursors_reset_count. destruct o as [rs|]; simpl.
  - rewrite map_size_empty_iff, map_empty_filter. unfold cursor_beyond. split.
    + intros H rs' k r [= <-] Hk. specialize (H k r Hk). simpl in H.
      by destruct (number_ge _ _).
    + intros H k r Hk. simpl. rewrite (H rs k r eq_refl Hk). done.
  - split; [by intros _ ? ? ? [=] | done].
Qed.

Lemma prune_short L data :
  L = 0%nat ∨ default [] (memories data) = [] →
  pruneMemoriesForBranch L data = (data, zero_report).
Proof.
  intros [-> | Hnil]; unfold pruneMemoriesForBranch; [done|].
  rewrite Hnil. simpl. by rewrite orb_true_r.
Qed.

Lemma prune_active L data ms :
  (0 < L)%nat → memories data = Some ms → ms ≠ [] →
  let P := prunedMemoryIds (scan_memories L ms) in
  pruneMemoriesForBranch L data =
  (Store (Some (filter (λ m, ¬ invalid L m) ms))
         (each_value (clean_state P L) (characters data))
         (each_value (clean_relationship L) (relationships data))
         (reset_cursor L (last_processed_message_id data)),
   Report (length (filter (invalid L) ms))
          (events_removed P L (characters data))
          (cursors_reset L (relationships data))).
Proof.
  intros HL Hms Hne P. unfold pruneMemoriesForBranch. rewrite Hms. simpl.
  destruct (Nat.eqb_spec L 0) as [->|_]; [lia|].
  destruct (Nat.eqb_spec (length ms) 0) as [Hlen|_].
  { by apply length_zero_iff_nil in Hlen. }
  simpl. fold P.
  pose proof (over_characters P L (characters data)) as Hc.
  pose proof (over_relationships L (relationships data)) as Hr.
  unfold events_removed, cursors_reset.
  destruct (over_entries (clean_characters P L) (characters data)) as [cs' ne].
  destruct (over_entries (clean_relationships L) (relationships data)) as [rs' nr].
  simpl in *. subst cs' rs'. rewrite scan_valid, scan_count. f_equal. f_equal.
  destruct (Nat.ltb_spec 0 (length (filter (invalid L) ms))) as [_|Hz]; [done|].
  f_equal. symmetry. apply scan_nothing. rewrite scan_count. lia.
Qed.

(** The two cases cover every call. *)
Lemma prune_cases L data :
  (L = 0%nat ∨ default [] (memories data) = []) ∨
  ((0 < L)%nat ∧ ∃ ms, memories data = Some ms ∧ ms ≠ []).
Proof.
  destruct L as [|L]; [by left; left|].
  destruct (memories data) as [[|m ms]|] eqn:Hm; simpl; [by left; right | | by left; right].
  right. split; [lia|]. by exists (m :: ms).
Qed.

Lemma invalid_out_of_range L m : invalid L m ↔ out_of_range L m.
Proof. apply hasInvalidMessageId_spec. Qed.

Lemma filter_invalid L (ms : list memory) :
  filter (invalid L) ms = filter (out_of_range L) ms.
Proof. apply list_filter_iff. intros m. apply invalid_out_of_range. Qed.

Lemma filter_valid L (ms : list memory) :
  filter (λ m, ¬ invalid L m) ms = filter (λ m, ¬ out_of_range L m) ms.
Proof. apply list_filter_iff. intros m. by rewrite invalid_out_of_range. Qed.

Lemma no_ids_in_range L m :
  message_ids m = None ∨ message_ids m = Some [] → ¬ out_of_range L m.
Proof.
  intros [Hm|Hm] (i & Hi & _); rewrite Hm in Hi; simpl in Hi;
    by apply elem_of_nil in Hi.
Qed.

(** ** The short-circuit *)

(** C7: with [transcriptLength = 0] or an empty (or absent) memory
    collection, the call returns the zero report and the store it was
    given: memories, character states, relationships and the
    last-processed cursor are all untouched. *)
Theorem C7_short_circuit (L : nat) (data : store) :
  L = 0%nat ∨ default [] (memories data) = [] →
  pruneReport L data = Report 0 0 0 ∧
  reconciled L data = data ∧
  memories (reconciled L data) = memories data ∧
  characters (reconciled L data) = characters data ∧
  relationships (reconciled L data) = relationships data ∧
  last_processed_message_id (reconciled L data) = last_processed_message_id data.
Proof.
  intros Hshort. unfold pruneReport, reconciled.
  by rewrite (prune_short L data Hshort).
Qed.

Lemma C7_short_circuit_witness :
  (0%nat = 0%nat ∨ default [] (memories scenario) = []) ∧
  pruneReport 0 scenario = Report 0 0 0 ∧
  reconciled 0 scenario = scenario.
Proof.
  split; [by left|].
  destruct (C7_short_circuit 0 scenario) as (Hrep & Hsame & _); [by left|].
  by split.
Defined.

(** ** The memory scan *)

(** C1: with [L >= 1] and a non-empty memory collection, the memories
    kept are exactly those with no message id [>= L], in their original
    order; [prunedMemories] is the number of the others; a memory with
    [message_ids = [0, 5]] does not survive [L = 5]. *)
Theorem C1_memory_scan (L : nat) (data : store) (ms : list memory) :
  (1 ≤ L)%nat → memories data = Some ms → ms ≠ [] →
  memories (reconciled L data) = Some (filter (λ m, ¬ out_of_range L m) ms) ∧
  sublist (filter (λ m, ¬ out_of_range L m) ms) ms ∧
  prunedMemories (pruneReport L data) = length (filter (out_of_range L) ms) ∧
  (L = 5%nat → ∀ m, message_ids m = Some [0; 5] →
     m ∉ filter (λ m, ¬ out_of_range L m) ms).
Proof.
  intros HL Hms Hne. unfold reconciled, pruneReport.
  rewrite (prune_active L data ms) by (done || lia). simpl.
  rewrite filter_valid, filter_invalid. split_and!; [done | apply sublist_filter | done |].
  intros -> m Hm [Hin _]%list_elem_of_filter. apply Hin.
  exists 5. rewrite Hm. simpl. split; [set_solver | lia].
Qed.

Lemma C1_memory_scan_witness :
  (1 ≤ 5)%nat ∧
  memories (reconciled 5 two_memories) = Some [Memory "m2" "spans 0 to 4" (Some [0; 4])] ∧
  prunedMemories (pruneReport 5 two_memories) = 1%nat.
Proof.
  split; [lia|].
  destruct (C1_memory_scan 5 two_memories
              [Memory "m1" "spans 0 and 5" (Some [0; 5]);
               Memory "m2" "spans 0 to 4" (Some [0; 4])])
    as (Hkept & _ & Hcount & _); [lia | reflexivity | discriminate |].
  split; [rewrite Hkept | rewrite Hcount]; reflexivity.
Defined.

(** C10: a memory whose [message_ids] is absent or empty is never
    pruned: it is still in the store after the call, and
    [prunedMemories] is what it would be without that memory. *)
Theorem C10_no_ids_never_pruned (L : nat) (data : store)
    (pre post : list memory) (m : memory) :
  (1 ≤ L)%nat →
  memories data = Some (pre ++ m :: post) →
  message_ids m = None ∨ message_ids m = Some [] →
  (∃ ms', memories (reconciled L data) = Some ms' ∧ m ∈ ms') ∧
  prunedMemories (pruneReport L data) =
  prunedMemories (pruneReport L (with_memories (Some (pre ++ post)) data)).
Proof.
  intros HL Hms Hm. unfold reconciled, pruneReport.
  assert (Hvalid : ¬ invalid L m).
  { rewrite invalid_out_of_range. by apply no_ids_in_range. }
  rewrite (prune_active L data (pre ++ m :: post)) by (done || lia || by destruct pre).
  simpl. split.
  - eexists. split; [done|]. apply list_elem_of_filter. split; [done|].
    apply elem_of_app. right. left.
  - rewrite filter_app, filter_cons_False by done. rewrite <- filter_app.
    destruct (decide (pre ++ post = [])) as [Hnil|Hne].
    + rewrite Hnil. rewrite prune_short by (by right). done.
    + by rewrite (prune_active L _ (pre ++ post)) by (done || lia).
Qed.

Lemma C10_no_ids_never_pruned_witness :
  (1 ≤ 2)%nat ∧
  Memory "bare" "no message ids" None
    ∈ default [] (memories (reconciled 2 sparse_memories)) ∧
  prunedMemories (pruneReport 2 sparse_memories) = 1%nat.
Proof.
  split; [lia|].
  destruct (C10_no_ids_never_pruned 2 sparse_memories
              [Memory "old" "beyond the branch" (Some [7])] []
              (Memory "bare" "no message ids" None))
    as ((ms' & Hms' & Hin) & Hcount); [lia | reflexivity | by left |].
  split; [by rewrite Hms' | rewrite Hcount; reflexivity].
Defined.

(** ** Idempotence *)

Lemma each_value_idem {A} (f g : A → A) (o : option (gmap string A)) :
  (∀ x, g (f x) = f x) →
  each_value g (each_value f o) = each_value f o.
Proof.
  intros Hgf. destruct o as [m|]; [|done]. simpl. f_equal.
  rewrite <- map_fmap_compose. apply map_fmap_ext. intros k x _. apply Hgf.
Qed.

Lemma events_removed_empty L o : events_removed ∅ L o = 0%nat.
Proof.
  apply events_removed_zero. intros cs k st _ _.
  by rewrite prune_known_events_empty.
Qed.

Lemma cursors_reset_cleaned L o :
  (0 < L)%nat → cursors_reset L (each_value (clean_relationship L) o) = 0%nat.
Proof.
  intros HL. apply cursors_reset_zero. intros rs k r Hrs Hk.
  destruct o as [rs0|]; [|done]. simpl in Hrs. injection Hrs as <-.
  apply lookup_fmap_Some in Hk as (r0 & <- & _). simpl.
  by apply number_ge_reset.
Qed.

(** C2: a second call with the same transcript length returns the
    store produced by the first call, unchanged, and the zero report. *)
Theorem C2_idempotent (L : nat) (data : store) :
  pruneMemoriesForBranch L (reconciled L data) = (reconciled L data, Report 0 0 0) ∧
  reconciled L (reconciled L data) = reconciled L data ∧
  pruneReport L (reconciled L data) = Report 0 0 0.
Proof.
  assert (Hgoal : pruneMemoriesForBranch L (reconciled L data)
                  = (reconciled L data, Report 0 0 0)).
  2: { unfold reconciled at 3, pruneReport. by rewrite Hgoal. }
  destruct (prune_cases L data) as [Hshort | (HL & ms & Hms & Hne)].
  - unfold reconciled. rewrite (prune_short L data Hshort). simpl.
    by apply prune_short.
  - unfold reconciled. rewrite (prune_active L data ms HL Hms Hne). simpl.
    set (P := prunedMemoryIds (scan_memories L ms)).
    set (kept := filter (λ m, ¬ invalid L m) ms).
    destruct (decide (kept = [])) as [Hnil|Hkept].
    { rewrite Hnil. apply prune_short. by right. }
    rewrite (prune_active L _ kept) by done. simpl.
    assert (Hall : ∀ m, m ∈ kept → ¬ invalid L m).
    { intros m Hm. by apply list_elem_of_filter in Hm as [? _]. }
    rewrite (scan_of_valid L kept Hall). simpl.
    rewrite (filter_all _ kept Hall).
    rewrite (filter_none (invalid L) kept) by (intros m Hm; by apply Hall).
    rewrite each_value_idem by (intros st; by apply clean_state_empty_idem).
    rewrite each_value_idem by (intros r; by apply clean_relationship_idem).
    rewrite reset_cursor_idem by done.
    by rewrite events_removed_empty, cursors_reset_cleaned.
Qed.

(** ** Dictionaries rewritten value by value *)

Lemma each_value_compose {A B C} (f : A → B) (g : B → C) (o : option (gmap string A)) :
  each_value g (each_value f o) = each_value (g ∘ f) o.
Proof. destruct o as [m|]; [|done]. simpl. by rewrite <- map_fmap_compose. Qed.

Lemma each_value_ext {A B} (f g : A → B) (o : option (gmap string A)) :
  (∀ m k x, o = Some m → m !! k = Some x → f x = g x) →
  each_value f o = each_value g o.
Proof.
  intros Hfg. destruct o as [m|]; [|done]. simpl. f_equal.
  apply map_fmap_ext. intros k x Hk. by apply (Hfg m k).
Qed.

Lemma each_value_fixed {A} (f : A → A) (o : option (gmap string A)) :
  (∀ m k x, o = Some m → m !! k = Some x → f x = x) →
  each_value f o = o.
Proof.
  intros Hf. destruct o as [m|]; [|done]. simpl. f_equal.
  rewrite <- (map_fmap_id m) at 2. apply map_fmap_ext.
  intros k x Hk. by apply (Hf m k).
Qed.

Lemma each_value_lookup {A B} (f : A → B) (o : option (gmap string A)) m' k y :
  each_value f o = Some m' → m' !! k = Some y →
  ∃ m x, o = Some m ∧ m !! k = Some x ∧ y = f x.
Proof.
  destruct o as [m|]; [|done]. simpl. intros [= <-] Hk.
  apply lookup_fmap_Some in Hk as (x & <- & Hx). eauto.
Qed.

Lemma number_ge_false v L :
  number_ge v L = false ↔ ∀ n, v = JNumber n → n < Z.of_nat L.
Proof.
  destruct v; simpl; try (split; [by intros _ ? [=] | done]).
  destruct (Z.geb_spec n (Z.of_nat L)); split; try done.
  - intros Hn. specialize (Hn n eq_refl). lia.
  - intros _ ? [= <-]. lia.
Qed.

Lemma field_ge_false v L :
  field_ge v L = false ↔ ∀ n, v = Some n → n < Z.of_nat L.
Proof.
  destruct v as [n|]; simpl; [|split; [by intros _ ? [=] | done]].
  destruct (Z.geb_spec n (Z.of_nat L)); split; try done.
  - intros Hn. specialize (Hn n eq_refl). lia.
  - intros _ ? [= <-]. lia.
Qed.

Lemma keep_history_entry_spec L h :
  keep_history_entry L h = true ↔ ∀ n, message_id h = JNumber n → n < Z.of_nat L.
Proof.
  unfold keep_history_entry.
  destruct (message_id h); try (split; [by intros _ ? [=] | done]).
  rewrite Z.ltb_lt. split; [by intros ? ? [= <-] | by intros H; apply H].
Qed.

Lemma reset_cursor_fixed L v : number_ge v L = false → reset_cursor L v = v.
Proof. intros Hv. unfold reset_cursor. by rewrite Hv. Qed.

Lemma filter_history_fixed L (h : option (list history_entry)) :
  (∀ hs e n, h = Some hs → e ∈ hs → message_id e = JNumber n → n < Z.of_nat L) →
  filter_history L h = h.
Proof.
  intros Hall. destruct h as [hs|]; [|done]. simpl. f_equal.
  apply filter_all. intros e He. apply Is_true_true, keep_history_entry_spec.
  intros n. by apply (Hall hs).
Qed.

(** ** The last-processed cursor *)

(** C3, as stated, fails: with a cursor of 10 and [L = 0] the
    short-circuit returns before the clamp, and the cursor is still 10,
    not -1. *)
Lemma C3_cursor_clamp_counterexample :
  last_processed_message_id cursor_ten = JNumber 10 ∧
  last_processed_message_id (reconciled 0 cursor_ten) = JNumber 10 ∧
  last_processed_message_id (reconciled 0 cursor_ten) ≠ JNumber (-1).
Proof. split_and!; [reflexivity | reflexivity | discriminate]. Qed.

(** C3, amended: a numeric cursor [>= L] is reset to [L - 1] when
    [L >= 1] and the store has at least one memory (10 becomes 3 for
    [L = 4]); with [L = 0] or no memory the short-circuit leaves it as
    it is. *)
Theorem C3_cursor_clamp (L : nat) (data : store) (n : Z) :
  last_processed_message_id data = JNumber n → Z.of_nat L ≤ n →
  ((1 ≤ L)%nat → default [] (memories data) ≠ [] →
     last_processed_message_id (reconciled L data) = JNumber (Z.of_nat L - 1)) ∧
  (L = 0%nat ∨ default [] (memories data) = [] →
     last_processed_message_id (reconciled L data) = JNumber n).
Proof.
  intros Hcur Hge. split.
  - intros HL Hne.
    destruct (prune_cases L data) as [[-> | Hnil] | (_ & ms & Hms & Hms')];
      [lia | done |].
    unfold reconciled. rewrite (prune_active L data ms) by (done || lia). simpl.
    rewrite Hcur. unfold reset_cursor. simpl.
    destruct (Z.geb_spec n (Z.of_nat L)); [|lia].
    by rewrite last_valid_lt by lia.
  - intros Hshort. unfold reconciled. by rewrite (prune_short L data Hshort).
Qed.

Lemma C3_cursor_clamp_witness :
  last_processed_message_id cursor_ten = JNumber 10 ∧ Z.of_nat 4 ≤ 10 ∧
  (1 ≤ 4)%nat ∧ default [] (memories cursor_ten) ≠ [] ∧
  last_processed_message_id (reconciled 4 cursor_ten) = JNumber 3 ∧
  last_processed_message_id (reconciled 0 cursor_ten) = JNumber 10.
Proof.
  split_and!; [reflexivity | lia | lia | discriminate | |].
  - refine (proj1 (C3_cursor_clamp 4 cursor_ten 10 eq_refl _) _ _);
      [lia | lia | discriminate].
  - refine (proj2 (C3_cursor_clamp 0 cursor_ten 10 eq_refl _) _); [lia | by left].
Defined.

(** ** The zero report *)

(** C4, as stated, fails: the clamp of the last-processed cursor is not
    counted, so the report is zero although the store has changed. *)
Lemma C4_zero_report_counterexample :
  pruneReport 4 cursor_ten = Report 0 0 0 ∧
  reconciled 4 cursor_ten ≠ cursor_ten.
Proof. split; [reflexivity | discriminate]. Qed.

(** C4, amended: a zero report means that the memory collection, every
    [known_events] and every [last_updated_message_id] are unchanged;
    the whole store is unchanged when, besides, no emotion range, no
    history entry and no last-processed cursor was out of range (their
    rewrites are not counted in the report). *)
Theorem C4_zero_report (L : nat) (data : store) :
  pruneReport L data = Report 0 0 0 →
  memories (reconciled L data) = memories data ∧
  each_value known_events (characters (reconciled L data))
    = each_value known_events (characters data) ∧
  each_value last_updated_message_id (relationships (reconciled L data))
    = each_value last_updated_message_id (relationships data) ∧
  (emotions_in_range L data → histories_in_range L data → cursor_in_range L data →
   reconciled L data = data).
Proof.
  unfold pruneReport, reconciled.
  destruct (prune_cases L data) as [Hshort | (HL & ms & Hms & Hne)].
  { by rewrite (prune_short L data Hshort). }
  rewrite (prune_active L data ms HL Hms Hne). simpl.
  set (P := prunedMemoryIds (scan_memories L ms)).
  intros [= Hmem Hev Hrel].
  rewrite events_removed_zero in Hev. rewrite cursors_reset_zero in Hrel.
  assert (Hkept : filter (λ m, ¬ invalid L m) ms = ms).
  { apply filter_same_length. pose proof (length_filter_split (invalid L) ms). lia. }
  rewrite Hkept, Hms. split_and!; [done | | |].
  - rewrite each_value_compose. apply each_value_ext. intros cs k st Hcs Hk. simpl.
    unfold clean_state. rewrite clamp_emotion_known_events.
    by rewrite (prune_known_events_removed P st (Hev cs k st Hcs Hk)).
  - rewrite each_value_compose. apply each_value_ext. intros rs k r Hrs Hk. simpl.
    apply reset_cursor_fixed. by apply (Hrel rs k).
  - intros Hemo Hhist Hcur. destruct data as [mems cs rs cur]. simpl in *.
    f_equal; [done | | |].
    + apply each_value_fixed. intros m k st -> Hk.
      apply clean_state_unchanged; [by apply (Hev m k)|].
      apply field_ge_false. intros mx Hmx.
      destruct (emotion_from_messages st) as [e|] eqn:He; [|done].
      by apply (Hemo m k st e).
    + apply each_value_fixed. intros m k r -> Hk. destruct r as [lu hs].
      unfold clean_relationship. simpl. f_equal.
      * apply reset_cursor_fixed. by apply (Hrel m k _ eq_refl Hk).
      * apply filter_history_fixed. intros hs' e n -> He Hn.
        by apply (Hhist m k _ hs' e n eq_refl Hk).
    + apply reset_cursor_fixed, number_ge_false. apply Hcur.
Qed.

Lemma C4_zero_report_witness :
  pruneReport 4 cursor_ten = Report 0 0 0 ∧
  memories (reconciled 4 cursor_ten) = Some [Memory "a" "first" (Some [0])].
Proof.
  split; [reflexivity|].
  by rewrite (proj1 (C4_zero_report 4 cursor_ten eq_refl)).
Defined.

(** ** Character states *)

(** C5, as stated, fails: an id that no memory carried before the call
    is not an id of a pruned memory, and stays in [known_events]. *)
Lemma C5_known_events_counterexample :
  characters (reconciled 1 dangling)
    = Some {[ "Alice" := CharacterState (Some ["ghost"]) None ]} ∧
  memories (reconciled 1 dangling) = Some [Memory "a" "first" (Some [0])] ∧
  "ghost" ∉ id <$> [Memory "a" "first" (Some [0])].
Proof.
  split_and!; [by vm_compute | reflexivity |].
  simpl. intros Hin. apply list_elem_of_singleton in Hin. discriminate.
Qed.

(** C5, amended: after a call with [L >= 1] on a store with at least
    one memory, no [known_events] holds the id of a memory pruned by
    the call; an id that some memory carried before the call is the id
    of a memory still in the store. *)
Theorem C5_known_events (L : nat) (data : store) (ms : list memory)
    (cs : gmap string character_state) :
  (1 ≤ L)%nat → memories data = Some ms → ms ≠ [] → characters data = Some cs →
  ∃ ms' cs',
    memories (reconciled L data) = Some ms' ∧
    characters (reconciled L data) = Some cs' ∧
    ∀ name st' events e,
      cs' !! name = Some st' → known_events st' = Some events → e ∈ events →
      (∀ m, m ∈ ms → out_of_range L m → id m ≠ e) ∧
      ((∃ m, m ∈ ms ∧ id m = e) → ∃ m, m ∈ ms' ∧ id m = e).
Proof.
  intros HL Hms Hne Hcs. unfold reconciled.
  rewrite (prune_active L data ms) by (done || lia). simpl. rewrite Hcs. simpl.
  set (P := prunedMemoryIds (scan_memories L ms)).
  eexists _, _. split_and!; [done | done |].
  intros name st' events e Hname Hev He.
  apply lookup_fmap_Some in Hname as (st & <- & Hst).
  unfold clean_state in Hev. rewrite clamp_emotion_known_events in Hev.
  unfold prune_known_events in Hev.
  destruct (known_events st) as [events0|] eqn:Hst0; simpl in Hev; [|by rewrite Hst0 in Hev].
  injection Hev as <-. apply list_elem_of_filter in He as [HeP He].
  assert (Hnot : ∀ m, m ∈ ms → invalid L m → id m ≠ e).
  { intros m Hm Hinv Hid. apply HeP. apply scan_ids. eauto. }
  split.
  - intros m Hm Hout. apply Hnot; [done|]. by apply invalid_out_of_range.
  - intros (m & Hm & Hid). exists m. split; [|done].
    apply list_elem_of_filter. split; [|done]. intros Hinv. by apply (Hnot m).
Qed.

Lemma C5_known_events_witness :
  (1 ≤ 3)%nat ∧
  characters (reconciled 3 scenario)
    = Some {[ "Alice" := CharacterState (Some ["a"]) None ]} ∧
  ∃ m, m ∈ default [] (memories (reconciled 3 scenario)) ∧ id m = "a".
Proof.
  split; [lia|].
  destruct (C5_known_events 3 scenario
              [Memory "a" "first" (Some [0; 1]); Memory "b" "second" (Some [2; 9])]
              {[ "Alice" := CharacterState (Some ["a"; "b"]) None ]})
    as (ms' & cs' & Hms' & Hcs' & Hall); [lia | reflexivity | discriminate | reflexivity |].
  split; [by vm_compute|].
  rewrite Hms'. simpl.
  apply (Hall "Alice" (CharacterState (Some ["a"]) None) ["a"] "a").
  - assert (Hrun : characters (reconciled 3 scenario)
                   = Some {[ "Alice" := CharacterState (Some ["a"]) None ]})
      by (by vm_compute).
    rewrite Hrun in Hcs'. injection Hcs' as <-. apply lookup_singleton_eq.
  - reflexivity.
  - left.
  - exists (Memory "a" "first" (Some [0; 1])). split; [left | reflexivity].
Defined.

Lemma clamp_emotion_max L st e mx :
  (0 < L)%nat → emotion_from_messages (clamp_emotion L st) = Some e →
  max e = Some mx → mx < Z.of_nat L.
Proof.
  intros HL. unfold clamp_emotion.
  destruct (emotion_from_messages st) as [e0|] eqn:He0; [|by rewrite He0].
  destruct (field_ge (max e0) L) eqn:Hmax.
  - destruct (field_ge (min e0) L); simpl; [done|].
    intros [= <-]. simpl. intros [= <-]. lia.
  - rewrite He0. intros [= <-] Hmx. by apply (proj1 (field_ge_false _ _) Hmax).
Qed.

(** C6: with [L >= 1] and at least one memory, an emotion range whose
    [max] is [>= L] is deleted when its [min] is [>= L] too, and
    otherwise keeps its [min] and gets [max = L - 1]; for [L = 5],
    [{3, 7}] becomes [{3, 4}] and [{6, 7}] is deleted. *)
Theorem C6_emotion_two_tier (L : nat) (data : store) (ms : list memory)
    (cs : gmap string character_state) (name : string) (st : character_state)
    (e : emotion_range) (mx : Z) :
  (1 ≤ L)%nat → memories data = Some ms → ms ≠ [] →
  characters data = Some cs → cs !! name = Some st →
  emotion_from_messages st = Some e → max e = Some mx → Z.of_nat L ≤ mx →
  ∃ cs' st',
    characters (reconciled L data) = Some cs' ∧ cs' !! name = Some st' ∧
    ((∃ mn, min e = Some mn ∧ Z.of_nat L ≤ mn) →
       emotion_from_messages st' = None) ∧
    (¬ (∃ mn, min e = Some mn ∧ Z.of_nat L ≤ mn) →
       emotion_from_messages st'
       = Some (EmotionRange (min e) (Some (Z.of_nat L - 1)))) ∧
    (L = 5%nat → e = EmotionRange (Some 3) (Some 7) →
       emotion_from_messages st' = Some (EmotionRange (Some 3) (Some 4))) ∧
    (L = 5%nat → e = EmotionRange (Some 6) (Some 7) →
       emotion_from_messages st' = None).
Proof.
  intros HL Hms Hne Hcs Hst He Hmx Hge. unfold reconciled.
  rewrite (prune_active L data ms) by (done || lia). simpl. rewrite Hcs. simpl.
  set (P := prunedMemoryIds (scan_memories L ms)).
  exists (clean_state P L <$> cs), (clean_state P L st).
  split_and!; [done | by rewrite lookup_fmap, Hst | | | |].
  all: unfold clean_state, clamp_emotion; rewrite prune_known_events_emotion, He.
  all: assert (Hmax : field_ge (max e) L = true) by (apply field_ge_spec; eauto).
  all: rewrite Hmax.
  - intros Hmin. apply field_ge_spec in Hmin. by rewrite Hmin.
  - intros Hmin. destruct (field_ge (min e) L) eqn:Hmin'; [|done].
    apply field_ge_spec in Hmin'. by destruct Hmin.
  - by intros -> ->.
  - by intros -> ->.
Qed.

Lemma C6_emotion_two_tier_witness :
  (1 ≤ 5)%nat ∧ Z.of_nat 5 ≤ 7 ∧
  ∃ cs' st',
    characters (reconciled 5 moody) = Some cs' ∧ cs' !! "Alice" = Some st' ∧
    emotion_from_messages st' = Some (EmotionRange (Some 3) (Some 4)).
Proof.
  split_and!; [lia | lia |].
  destruct (C6_emotion_two_tier 5 moody [Memory "a" "first" (Some [0])]
              {[ "Alice" := CharacterState None
                              (Some (EmotionRange (Some 3) (Some 7))) ]}
              "Alice" (CharacterState None (Some (EmotionRange (Some 3) (Some 7))))
              (EmotionRange (Some 3) (Some 7)) 7)
    as (cs' & st' & Hcs' & Hst' & _ & _ & Hclamp & _);
    [lia | reflexivity | discriminate | reflexivity | by vm_compute
    | reflexivity | reflexivity | lia |].
  exists cs', st'. split_and!; [done | done | by apply Hclamp].
Defined.

(** ** Relationships *)

Lemma keep_history_entry_beyond L h :
  keep_history_entry L h ↔ ¬ numeric_beyond L (message_id h).
Proof.
  rewrite Is_true_true, keep_history_entry_spec. unfold numeric_beyond. split.
  - intros Hlt (n & Hn & Hge). specialize (Hlt n Hn). lia.
  - intros Hnot n Hn. destruct (Z.lt_ge_cases n (Z.of_nat L)); [done|].
    destruct Hnot. eauto.
Qed.

Lemma cursors_reset_beyond L (rs : gmap string relationship) :
  cursors_reset L (Some rs)
  = size (filter (λ kr, numeric_beyond L (last_updated_message_id kr.2)) rs).
Proof.
  rewrite cursors_reset_count. simpl. f_equal. apply map_filter_ext.
  intros k r _. unfold cursor_beyond. simpl. apply number_ge_spec.
Qed.

Lemma cursors_reset_cursors L (o : option (gmap string relationship)) :
  cursors_reset L o
  = from_option
      (λ vs : gmap string jsval, size (filter (λ kv, numeric_beyond L kv.2) vs))
      0%nat (each_value last_updated_message_id o).
Proof.
  destruct o as [rs|]; [|done]. rewrite cursors_reset_beyond. simpl.
  by rewrite map_filter_fmap, map_size_fmap.
Qed.

(** The count of the relationship loop reads the cursors only. *)
Lemma pruned_relationships_cursors_only L data data2 :
  memories data2 = memories data →
  each_value last_updated_message_id (relationships data2)
    = each_value last_updated_message_id (relationships data) →
  prunedRelationships (pruneReport L data2) = prunedRelationships (pruneReport L data).
Proof.
  intros Hmem Hrel. unfold pruneReport.
  destruct (prune_cases L data) as [Hshort | (HL & ms & Hms & Hne)].
  - rewrite (prune_short L data Hshort). rewrite prune_short; [done|].
    by rewrite Hmem.
  - rewrite (prune_active L data ms) by done.
    rewrite (prune_active L data2 ms) by (done || by rewrite Hmem). simpl.
    by rewrite !cursors_reset_cursors, Hrel.
Qed.

(** C8: the history kept is the history without the entries whose
    [message_id] is a number [>= L]; an entry whose [message_id] is
    absent or not a number is kept for every [L]; [prunedRelationships]
    is the number of relationships whose [last_updated_message_id] is a
    number [>= L], the ones that are reset; it is the same for any store
    that differs in its histories only. *)
Theorem C8_history_filter (L : nat) (data : store)
    (rs : gmap string relationship) (key : string) (r : relationship)
    (hs : list history_entry) :
  relationships data = Some rs → rs !! key = Some r → history r = Some hs →
  ∃ rs' r' hs',
    relationships (reconciled L data) = Some rs' ∧ rs' !! key = Some r' ∧
    history r' = Some hs' ∧
    (∀ h, h ∈ hs → (∀ n, message_id h ≠ JNumber n) → h ∈ hs') ∧
    (∀ data2, memories data2 = memories data →
       each_value last_updated_message_id (relationships data2)
         = each_value last_updated_message_id (relationships data) →
       prunedRelationships (pruneReport L data2)
       = prunedRelationships (pruneReport L data)) ∧
    ((1 ≤ L)%nat → default [] (memories data) ≠ [] →
       hs' = filter (λ h, ¬ numeric_beyond L (message_id h)) hs ∧
       last_updated_message_id r'
       = (if decide (numeric_beyond L (last_updated_message_id r))
          then JNumber (Z.of_nat L - 1) else last_updated_message_id r) ∧
       prunedRelationships (pruneReport L data)
       = size (filter (λ kr, numeric_beyond L (last_updated_message_id kr.2)) rs)).
Proof.
  intros Hrs Hr Hhs.
  pose proof (pruned_relationships_cursors_only L data) as Honly. revert Honly.
  unfold reconciled, pruneReport.
  destruct (prune_cases L data) as [Hshort | (HL & ms & Hms & Hne)].
  - rewrite (prune_short L data Hshort). simpl. intros Honly.
    exists rs, r, hs. split_and!; [done | done | done | done | done |].
    intros HL Hmem. destruct Hshort; [lia | done].
  - rewrite (prune_active L data ms HL Hms Hne). simpl. rewrite Hrs. simpl.
    intros Honly.
    exists (clean_relationship L <$> rs), (clean_relationship L r),
           (filter (λ h, keep_history_entry L h) hs).
    split_and!; [done | by rewrite lookup_fmap, Hr | by simpl; rewrite Hhs | | done |].
    + intros h Hh Hnum. apply list_elem_of_filter. split; [|done].
      apply keep_history_entry_beyond. intros (n & Hn & _). by apply (Hnum n).
    + intros _ _. split_and!.
      * apply list_filter_iff. intros h. apply keep_history_entry_beyond.
      * simpl. unfold reset_cursor.
        destruct (decide _) as [Hb|Hb].
        -- rewrite (proj2 (number_ge_spec _ _) Hb). by rewrite last_valid_lt.
        -- destruct (number_ge _ L) eqn:Hn; [|done].
           by apply number_ge_spec in Hn.
      * apply cursors_reset_beyond.
Qed.

Lemma C8_history_filter_witness :
  ∃ rs' r',
    relationships (reconciled 2 gossip) = Some rs' ∧
    rs' !! "Alice-Bob" = Some r' ∧
    history r' = Some [HistoryEntry JUndefined "met"; HistoryEntry (JNumber 1) "truce"] ∧
    prunedRelationships (pruneReport 2 gossip) = 0%nat.
Proof.
  destruct (C8_history_filter 2 gossip
              {[ "Alice-Bob" :=
                   Relationship JUndefined
                     (Some [HistoryEntry (JNumber 7) "quarrel";
                            HistoryEntry JUndefined "met";
                            HistoryEntry (JNumber 1) "truce"]) ]}
              "Alice-Bob"
              (Relationship JUndefined
                     (Some [HistoryEntry (JNumber 7) "quarrel";
                            HistoryEntry JUndefined "met";
                            HistoryEntry (JNumber 1) "truce"]))
              [HistoryEntry (JNumber 7) "quarrel";
               HistoryEntry JUndefined "met";
               HistoryEntry (JNumber 1) "truce"])
    as (rs' & r' & hs' & Hrs' & Hr' & Hhs' & _ & _ & Hactive);
    [reflexivity | by vm_compute | reflexivity |].
  destruct Hactive as (-> & _ & Hcount); [lia | discriminate |].
  exists rs', r'. split_and!; [done | done | | ].
  - rewrite Hhs'. by vm_compute.
  - rewrite Hcount. by vm_compute.
Defined.

(** ** Everything left is in range *)

(** C9: after a call with [L >= 1] on a store with at least one memory,
    every numeric message position left in the store is [< L]: the
    message ids of the memories, the [max] of the emotion ranges, the
    relationship cursors, the message ids of the history entries and
    the last-processed cursor. *)
Theorem C9_all_in_range (L : nat) (data : store) (ms : list memory) :
  (1 ≤ L)%nat → memories data = Some ms → ms ≠ [] →
  memories_in_range L (reconciled L data) ∧
  emotions_in_range L (reconciled L data) ∧
  relationship_cursors_in_range L (reconciled L data) ∧
  histories_in_range L (reconciled L data) ∧
  cursor_in_range L (reconciled L data).
Proof.
  intros HL Hms Hne. unfold reconciled.
  rewrite (prune_active L data ms) by (done || lia). simpl.
  set (P := prunedMemoryIds (scan_memories L ms)).
  split_and!.
  - intros ms' m ids i [= <-] Hm Hids Hi. simpl in *.
    apply list_elem_of_filter in Hm as [Hvalid _].
    destruct (Z.lt_ge_cases i (Z.of_nat L)); [done|].
    destruct Hvalid. apply invalid_out_of_range. exists i. by rewrite Hids.
  - intros cs' name st' e mx Hcs' Hname He Hmx. simpl in Hcs'.
    destruct (each_value_lookup _ _ _ _ _ Hcs' Hname) as (cs & st & _ & _ & ->).
    unfold clean_state in He. eapply clamp_emotion_max; [|exact He|exact Hmx]. lia.
  - intros rs' key r' n Hrs' Hkey Hn. simpl in Hrs'.
    destruct (each_value_lookup _ _ _ _ _ Hrs' Hkey) as (rs & r & _ & _ & ->).
    simpl in Hn. apply (proj1 (number_ge_false _ L)) with (n := n) in Hn; [done|].
    apply number_ge_reset. lia.
  - intros rs' key r' hs h n Hrs' Hkey Hhs Hh Hn. simpl in Hrs'.
    destruct (each_value_lookup _ _ _ _ _ Hrs' Hkey) as (rs & r & _ & _ & ->).
    simpl in Hhs. destruct (history r) as [hs0|]; [|done].
    injection Hhs as <-. apply list_elem_of_filter in Hh as [Hkeep _].
    apply Is_true_true in Hkeep. by apply (proj1 (keep_history_entry_spec L h)).
  - intros n Hn. simpl in Hn.
    apply (proj1 (number_ge_false _ L)) with (n := n) in Hn; [done|].
    apply number_ge_reset. lia.
Qed.

Lemma C9_all_in_range_witness :
  (1 ≤ 3)%nat ∧
  last_processed_message_id (reconciled 3 scenario) = JNumber 2 ∧
  cursor_in_range 3 (reconciled 3 scenario).
Proof.
  split; [lia|]. split; [reflexivity|].
  apply (C9_all_in_range 3 scenario
           [Memory "a" "first" (Some [0; 1]); Memory "b" "second" (Some [2; 9])]);
    [lia | reflexivity | discriminate].
Defined.

(** * Further properties of the pruning pass *)

(** ** What the loops compute, entry by entry *)

Lemma scan_pruned_ids L ms :
  prunedMemoryIds (scan_memories L ms) = pruned_ids L ms.
Proof.
  apply set_eq. intros x. rewrite scan_ids. unfold pruned_ids.
  rewrite elem_of_list_to_set, list_elem_of_fmap.
  setoid_rewrite list_elem_of_filter. split.
  - intros (m & Hm & Hinv & <-). exists m.
    split; [done|]. split; [by apply invalid_out_of_range | done].
  - intros (m & -> & Hout & Hm). exists m.
    split; [done|]. split; [by apply invalid_out_of_range | done].
Qed.

Lemma clean_state_known_events P L st :
  known_events (clean_state P L st)
  = filter (λ e, e ∉ P) <$> known_events st.
Proof.
  unfold clean_state. rewrite clamp_emotion_known_events.
  unfold prune_known_events.
  destruct (known_events st) eqn:Hev; simpl; [done | by rewrite Hev].
Qed.

Lemma removed_count P st :
  (prune_known_events P st).2
  = length (filter (λ e, e ∈ P) (default [] (known_events st))).
Proof.
  unfold prune_known_events. destruct (known_events st) as [events|]; simpl; [|done].
  pose proof (length_filter_split (λ e, e ∈ P) events). lia.
Qed.

Lemma sum_list_with_pointwise {A} (f g : A → nat) (l : list A) :
  (∀ x, f x = g x) → sum_list_with f l = sum_list_with g l.
Proof. intros Hfg. induction l as [|x l IH]; simpl; [done|]. by rewrite Hfg, IH. Qed.

Lemma clean_characters_count P L (cs : gmap string character_state) :
  (clean_characters P L cs).2
  = sum_list_with (λ kv, (prune_known_events P kv.2).2) (map_to_list cs).
Proof.
  unfold clean_characters. rewrite map_fold_foldr.
  induction (map_to_list cs) as [|[k st] l IH]; [done|]. simpl.
  unfold character_step at 1.
  destruct (prune_known_events P st) as [st1 removed]. simpl. rewrite IH.
  destruct (Nat.ltb_spec 0 removed); lia.
Qed.

(** X1: with [L >= 1] and at least one memory, every [known_events]
    list loses exactly the ids of the pruned memories, in place, and
    [prunedCharacterEvents] is the number of such entries summed over
    all character states. *)
Theorem X1_cascade_count (L : nat) (data : store) (ms : list memory)
    (cs : gmap string character_state) :
  (1 ≤ L)%nat → memories data = Some ms → ms ≠ [] → characters data = Some cs →
  (∃ cs', characters (reconciled L data) = Some cs' ∧
     ∀ name, known_events <$> cs' !! name
       = (λ st, filter (λ e, e ∉ pruned_ids L ms) <$> known_events st) <$> cs !! name) ∧
  prunedCharacterEvents (pruneReport L data)
  = sum_list_with
      (λ kv, length (filter (λ e, e ∈ pruned_ids L ms) (default [] (known_events kv.2))))
      (map_to_list cs).
Proof.
  intros HL Hms Hne Hcs. unfold reconciled, pruneReport.
  rewrite (prune_active L data ms) by (done || lia). simpl.
  rewrite scan_pruned_ids, Hcs. simpl. split.
  - eexists. split; [done|]. intros name. rewrite lookup_fmap.
    destruct (cs !! name) as [st|]; [|done]. simpl.
    by rewrite clean_state_known_events.
  - unfold events_removed. simpl. rewrite clean_characters_count.
    apply sum_list_with_pointwise. intros [k st]. apply removed_count.
Qed.

Lemma X1_cascade_count_witness :
  (1 ≤ 3)%nat ∧
  prunedCharacterEvents (pruneReport 3 scenario) = 1%nat ∧
  ∃ cs', characters (reconciled 3 scenario) = Some cs' ∧
         known_events <$> cs' !! "Alice" = Some (Some ["a"]).
Proof.
  split; [lia|].
  destruct (X1_cascade_count 3 scenario
              [Memory "a" "first" (Some [0; 1]); Memory "b" "second" (Some [2; 9])]
              {[ "Alice" := CharacterState (Some ["a"; "b"]) None ]})
    as ((cs' & Hcs' & Hevents) & Hcount);
    [lia | reflexivity | discriminate | reflexivity |].
  split; [rewrite Hcount; by vm_compute|].
  exists cs'. split; [done|]. rewrite Hevents. by vm_compute.
Defined.

(** ** A store that is already consistent *)

(** X2: a store all of whose message positions are below [L] is
    returned as it is, with the zero report. *)
Theorem X2_consistent_store_untouched (L : nat) (data : store) :
  memories_in_range L data → emotions_in_range L data →
  relationship_cursors_in_range L data → histories_in_range L data →
  cursor_in_range L data →
  pruneMemoriesForBranch L data = (data, Report 0 0 0).
Proof.
  intros Hmem Hemo Hrel Hhist Hcur.
  destruct (prune_cases L data) as [Hshort | (HL & ms & Hms & Hne)].
  { by apply prune_short. }
  assert (Hall : ∀ m, m ∈ ms → ¬ invalid L m).
  { intros m Hm (i & Hi & Hge)%invalid_out_of_range.
    destruct (message_ids m) as [ids|] eqn:Hids; simpl in Hi;
      [|by apply elem_of_nil in Hi].
    specialize (Hmem ms m ids i Hms Hm Hids Hi). lia. }
  rewrite (prune_active L data ms HL Hms Hne).
  rewrite (scan_of_valid L ms Hall). simpl.
  rewrite (filter_all _ ms Hall).
  rewrite (filter_none (invalid L) ms) by (intros m Hm Hinv; by apply (Hall m)).
  rewrite events_removed_empty.
  assert (Hzero : cursors_reset L (relationships data) = 0%nat).
  { apply cursors_reset_zero. intros rs k r Hrs Hk.
    apply number_ge_false. intros n. by apply (Hrel rs k). }
  rewrite Hzero. destruct data as [mems cs rs cur]. simpl in *. subst mems.
  f_equal. f_equal.
  - apply each_value_fixed. intros m k st -> Hk.
    apply clean_state_unchanged; [by rewrite prune_known_events_empty|].
    apply field_ge_false. intros mx Hmx.
    destruct (emotion_from_messages st) as [e|] eqn:He; [|done].
    by apply (Hemo m k st e).
  - apply each_value_fixed. intros m k r -> Hk. destruct r as [lu hs].
    unfold clean_relationship. simpl. f_equal.
    + apply reset_cursor_fixed, number_ge_false. intros n.
      by apply (Hrel m k _ n eq_refl Hk).
    + apply filter_history_fixed. intros hs' e n -> He Hn.
      by apply (Hhist m k _ hs' e n eq_refl Hk).
  - apply reset_cursor_fixed, number_ge_false. apply Hcur.
Qed.

Lemma X2_consistent_store_untouched_witness :
  memories_in_range 2 settled ∧ emotions_in_range 2 settled ∧
  relationship_cursors_in_range 2 settled ∧ histories_in_range 2 settled ∧
  cursor_in_range 2 settled ∧
  pruneMemoriesForBranch 2 settled = (settled, Report 0 0 0).
Proof.
  assert (Hmem : memories_in_range 2 settled).
  { intros ms m ids i [= <-] ->%list_elem_of_singleton [= <-] Hi.
    apply elem_of_cons in Hi as [-> | ->%list_elem_of_singleton]; lia. }
  assert (Hemo : emotions_in_range 2 settled).
  { intros cs name st e mx [= <-] [_ <-]%lookup_singleton_Some [= <-] [= <-]. lia. }
  assert (Hrel : relationship_cursors_in_range 2 settled).
  { intros rs key r n [= <-] [_ <-]%lookup_singleton_Some [= <-]. lia. }
  assert (Hhist : histories_in_range 2 settled).
  { intros rs key r hs h n [= <-] [_ <-]%lookup_singleton_Some [= <-]
      ->%list_elem_of_singleton [= <-]. lia. }
  assert (Hcur : cursor_in_range 2 settled).
  { intros n [= <-]. lia. }
  split_and!; [done..|].
  by apply X2_consistent_store_untouched.
Defined.

(** ** Nothing is added *)

(** X3: the call keeps the keys of both dictionaries: no character
    state and no relationship is added or removed, and an absent
    dictionary stays absent. *)
Theorem X3_keys_preserved (L : nat) (data : store) :
  (dom <$> characters (reconciled L data) : option (gset string))
    = dom <$> characters data ∧
  (dom <$> relationships (reconciled L data) : option (gset string))
    = dom <$> relationships data.
Proof.
  unfold reconciled.
  destruct (prune_cases L data) as [Hshort | (HL & ms & Hms & Hne)].
  { by rewrite (prune_short L data Hshort). }
  rewrite (prune_active L data ms HL Hms Hne). simpl.
  split.
  - destruct (characters data) as [cs|]; [|done]. simpl. by rewrite dom_fmap_L.
  - destruct (relationships data) as [rs|]; [|done]. simpl. by rewrite dom_fmap_L.
Qed.

(** X4: every list of the store only loses elements: the memories
    after the call are a sublist of the memories before, and so are the
    [known_events] of every character state and the [history] of every
    relationship. *)
Theorem X4_only_shrinks (L : nat) (data : store) :
  sublist (default [] (memories (reconciled L data))) (default [] (memories data)) ∧
  (∀ cs' name st',
     characters (reconciled L data) = Some cs' → cs' !! name = Some st' →
     ∃ cs st, characters data = Some cs ∧ cs !! name = Some st ∧
       sublist (default [] (known_events st')) (default [] (known_events st))) ∧
  (∀ rs' key r',
     relationships (reconciled L data) = Some rs' → rs' !! key = Some r' →
     ∃ rs r, relationships data = Some rs ∧ rs !! key = Some r ∧
       sublist (default [] (history r')) (default [] (history r))).
Proof.
  unfold reconciled.
  destruct (prune_cases L data) as [Hshort | (HL & ms & Hms & Hne)].
  { rewrite (prune_short L data Hshort). simpl. split_and!; [done | |].
    - intros cs' name st' Hcs Hst. by exists cs', st'.
    - intros rs' key r' Hrs Hr. by exists rs', r'. }
  rewrite (prune_active L data ms HL Hms Hne). simpl. rewrite Hms. simpl.
  split_and!.
  - apply sublist_filter.
  - intros cs' name st' Hcs' Hst'.
    destruct (each_value_lookup _ _ _ _ _ Hcs' Hst') as (cs & st & Hcs & Hst & ->).
    exists cs, st. split_and!; [done | done |].
    rewrite clean_state_known_events.
    destruct (known_events st) as [events|]; simpl; [apply sublist_filter | done].
  - intros rs' key r' Hrs' Hr'.
    destruct (each_value_lookup _ _ _ _ _ Hrs' Hr') as (rs & r & Hrs & Hr & ->).
    exists rs, r. split_and!; [done | done |]. simpl.
    destruct (history r) as [hs|]; simpl; [apply sublist_filter | done].
Qed.

(** X5: the counters account for the store: every memory is either
    kept or counted in [prunedMemories], and [prunedRelationships] is at
    most the number of relationships. *)
Theorem X5_accounting (L : nat) (data : store) :
  length (default [] (memories data))
  = (length (default [] (memories (reconciled L data)))
     + prunedMemories (pruneReport L data))%nat ∧
  (prunedRelationships (pruneReport L data)
   ≤ size (default ∅ (relationships data)))%nat.
Proof.
  unfold reconciled, pruneReport.
  destruct (prune_cases L data) as [Hshort | (HL & ms & Hms & Hne)].
  { rewrite (prune_short L data Hshort). simpl. split; lia. }
  rewrite (prune_active L data ms HL Hms Hne). simpl. rewrite Hms. simpl.
  split.
  - pose proof (length_filter_split (invalid L) ms). lia.
  - rewrite cursors_reset_count.
    destruct (relationships data) as [rs|]; simpl; [apply map_size_filter | lia].
Qed.

(** ** Emotion ranges stay in order *)

(** X6: the clamp never inverts a range: if every emotion range with
    both bounds has [min <= max] before the call, the same holds after
    it (message positions being integers, [min < L] gives
    [min <= L - 1]). *)
Theorem X6_emotion_ranges_ordered (L : nat) (data : store) :
  emotions_ordered data → emotions_ordered (reconciled L data).
Proof.
  intros Hord. unfold reconciled.
  destruct (prune_cases L data) as [Hshort | (HL & ms & Hms & Hne)].
  { by rewrite (prune_short L data Hshort). }
  rewrite (prune_active L data ms HL Hms Hne).
  intros cs' name st' e' mn mx Hcs' Hst' He' Hmn Hmx. simpl in Hcs'.
  destruct (each_value_lookup _ _ _ _ _ Hcs' Hst') as (cs & st & Hcs & Hst & ->).
  unfold clean_state, clamp_emotion in He'.
  rewrite prune_known_events_emotion in He'.
  destruct (emotion_from_messages st) as [e|] eqn:He.
  - destruct (field_ge (max e) L) eqn:Hmax.
    + destruct (field_ge (min e) L) eqn:Hmin; simpl in He'; [done|].
      injection He' as <-. simpl in Hmn, Hmx. injection Hmx as <-.
      pose proof (proj1 (field_ge_false _ _) Hmin mn Hmn). lia.
    + rewrite prune_known_events_emotion, He in He'. injection He' as <-.
      by apply (Hord cs name st e).
  - by rewrite prune_known_events_emotion, He in He'.
Qed.

Lemma X6_emotion_ranges_ordered_witness :
  emotions_ordered moody ∧
  characters (reconciled 5 moody)
    = Some {[ "Alice" := CharacterState None
                           (Some (EmotionRange (Some 3) (Some 4))) ]} ∧
  emotions_ordered (reconciled 5 moody).
Proof.
  assert (Hord : emotions_ordered moody).
  { intros cs name st e mn mx [= <-] [_ <-]%lookup_singleton_Some
      [= <-] [= <-] [= <-]. lia. }
  split_and!; [done | by vm_compute |].
  by apply X6_emotion_ranges_ordered.
Defined.

(** ** Entries that are in range are not touched *)

(** X7: a character state none of whose [known_events] is the id of an
    out-of-range memory, and whose emotion range has no [max >= L], is
    left exactly as it was, whatever happens to the rest of the store. *)
Theorem X7_valid_character_untouched (L : nat) (data : store)
    (cs : gmap string character_state) (name : string) (st : character_state) :
  characters data = Some cs → cs !! name = Some st →
  (∀ e m, e ∈ default [] (known_events st) → m ∈ default [] (memories data) →
          out_of_range L m → id m ≠ e) →
  (∀ e mx, emotion_from_messages st = Some e → max e = Some mx → mx < Z.of_nat L) →
  ∃ cs', characters (reconciled L data) = Some cs' ∧ cs' !! name = Some st.
Proof.
  intros Hcs Hst Hev Hemo. unfold reconciled.
  destruct (prune_cases L data) as [Hshort | (HL & ms & Hms & Hne)].
  { rewrite (prune_short L data Hshort). by exists cs. }
  rewrite (prune_active L data ms HL Hms Hne). simpl. rewrite Hcs. simpl.
  eexists. split; [done|]. rewrite lookup_fmap, Hst. simpl. f_equal.
  apply clean_state_unchanged.
  - rewrite removed_count. rewrite filter_none; [done|].
    intros e He (m & Hm & Hinv & Hid)%scan_ids.
    apply (Hev e m); [done | by rewrite Hms | by apply invalid_out_of_range | done].
  - apply field_ge_false. intros mx Hmx.
    destruct (emotion_from_messages st) as [e|] eqn:He; [|done].
    by apply (Hemo e).
Qed.

Lemma X7_valid_character_untouched_witness :
  ∃ cs', characters (reconciled 1 dangling) = Some cs' ∧
         cs' !! "Alice" = Some (CharacterState (Some ["ghost"]) None).
Proof.
  apply (X7_valid_character_untouched 1 dangling
           {[ "Alice" := CharacterState (Some ["ghost"]) None ]});
    [reflexivity | by vm_compute | | done].
  intros e m ->%list_elem_of_singleton ->%list_elem_of_singleton _. discriminate.
Defined.

(** X8: a relationship whose [last_updated_message_id] is not a number
    [>= L] and whose history has no numeric [message_id >= L] is left
    exactly as it was, whatever memories are pruned. *)
Theorem X8_valid_relationship_untouched (L : nat) (data : store)
    (rs : gmap string relationship) (key : string) (r : relationship) :
  relationships data = Some rs → rs !! key = Some r →
  (∀ n, last_updated_message_id r = JNumber n → n < Z.of_nat L) →
  (∀ hs h n, history r = Some hs → h ∈ hs → message_id h = JNumber n →
             n < Z.of_nat L) →
  ∃ rs', relationships (reconciled L data) = Some rs' ∧ rs' !! key = Some r.
Proof.
  intros Hrs Hr Hcur Hhist. unfold reconciled.
  destruct (prune_cases L data) as [Hshort | (HL & ms & Hms & Hne)].
  { rewrite (prune_short L data Hshort). by exists rs. }
  rewrite (prune_active L data ms HL Hms Hne). simpl. rewrite Hrs. simpl.
  eexists. split; [done|]. rewrite lookup_fmap, Hr. simpl. f_equal.
  destruct r as [lu hs]. unfold clean_relationship. simpl in *. f_equal.
  - by apply reset_cursor_fixed, number_ge_false.
  - by apply filter_history_fixed.
Qed.

Lemma X8_valid_relationship_untouched_witness :
  ∃ rs', relationships (reconciled 2 settled) = Some rs' ∧
         rs' !! "Alice-Bob"
         = Some (Relationship (JNumber 1) (Some [HistoryEntry (JNumber 0) "met"])).
Proof.
  apply (X8_valid_relationship_untouched 2 settled
           {[ "Alice-Bob" :=
                Relationship (JNumber 1) (Some [HistoryEntry (JNumber 0) "met"]) ]});
    [reflexivity | by vm_compute | |].
  - intros n [= <-]. lia.
  - intros hs h n [= <-] ->%list_elem_of_singleton [= <-]. lia.
Defined.

(** ** Shrinking the chat in two steps *)

Lemma character_state_eq (a b : character_state) :
  known_events a = known_events b →
  emotion_from_messages a = emotion_from_messages b → a = b.
Proof. destruct a, b. simpl. by intros -> ->. Qed.

Lemma clean_state_emotion P L st :
  emotion_from_messages (clean_state P L st)
  = clamp_range L (emotion_from_messages st).
Proof.
  destruct st as [events emo].
  unfold clean_state, clamp_range, clamp_emotion, prune_known_events.
  destruct events; simpl; (destruct emo as [e|]; simpl; [|done]);
    by destruct (field_ge (max e) L), (field_ge (min e) L).
Qed.

Lemma clamp_range_two_step L1 L2 o :
  (1 ≤ L2)%nat → (L2 ≤ L1)%nat →
  clamp_range L2 (clamp_range L1 o) = clamp_range L2 o.
Proof.
  intros H2 H21. unfold clamp_range, clamp_emotion. simpl.
  destruct o as [[mn mx]|]; [|done]. simpl.
  destruct (field_ge mx L1) eqn:Hmx1.
  - apply field_ge_spec in Hmx1 as (x & -> & Hx).
    assert (Hmx2 : field_ge (Some x) L2 = true) by (apply field_ge_spec; eexists; split; [done|lia]).
    rewrite Hmx2. destruct (field_ge mn L1) eqn:Hmn1.
    + apply field_ge_spec in Hmn1 as (y & -> & Hy).
      assert (Hmn2 : field_ge (Some y) L2 = true) by (apply field_ge_spec; eexists; split; [done|lia]).
      by rewrite Hmn2.
    + cbn [emotion_from_messages max min].
      destruct (decide (L1 = L2)) as [->|Hne].
      * rewrite field_ge_last by lia. cbn [emotion_from_messages]. by rewrite Hmn1.
      * assert (Hlast : field_ge (Some (Z.of_nat L1 - 1)) L2 = true)
          by (apply field_ge_spec; eexists; split; [done|lia]).
        rewrite Hlast. by destruct (field_ge mn L2).
  - cbn [emotion_from_messages max min]. done.
Qed.

Lemma invalid_mono L1 L2 m : (L2 ≤ L1)%nat → invalid L1 m → invalid L2 m.
Proof.
  intros H21. rewrite !invalid_out_of_range. intros (i & Hi & Hge).
  exists i. split; [done | lia].
Qed.

Lemma reset_cursor_two_step L1 L2 v :
  (1 ≤ L2)%nat → (L2 ≤ L1)%nat →
  reset_cursor L2 (reset_cursor L1 v) = reset_cursor L2 v.
Proof.
  intros H2 H21. unfold reset_cursor at 2.
  destruct (number_ge v L1) eqn:H1; [|done].
  apply number_ge_spec in H1 as (n & -> & Hn).
  unfold reset_cursor. simpl. rewrite !last_valid_lt by lia.
  destruct (Z.geb_spec n (Z.of_nat L2)); [|lia].
  destruct (Z.geb_spec (Z.of_nat L1 - 1) (Z.of_nat L2)); [done|].
  f_equal. lia.
Qed.

Lemma filter_history_two_step L1 L2 h :
  (L2 ≤ L1)%nat →
  filter_history L2 (filter_history L1 h) = filter_history L2 h.
Proof.
  intros H21. destruct h as [hs|]; [|done]. simpl. f_equal.
  rewrite list_filter_filter. apply list_filter_iff. intros e.
  split; [by intros [? _]|]. intros Hkeep. split; [done|].
  apply Is_true_true, keep_history_entry_spec. intros n Hn.
  apply Is_true_true in Hkeep.
  pose proof (proj1 (keep_history_entry_spec L2 e) Hkeep n Hn). lia.
Qed.

Lemma count_two_step L1 L2 (ms : list memory) :
  (L2 ≤ L1)%nat →
  length (filter (invalid L2) ms)
  = (length (filter (invalid L1) ms)
     + length (filter (invalid L2) (filter (λ m, ¬ invalid L1 m) ms)))%nat.
Proof.
  intros H21. induction ms as [|m ms IH]; [done|].
  rewrite !filter_cons.
  destruct (decide (invalid L1 m)) as [H1|H1].
  - rewrite decide_True by (by apply (invalid_mono L1)).
    rewrite decide_False by tauto. simpl. lia.
  - rewrite (decide_True (P := ¬ invalid L1 m)) by done. rewrite filter_cons.
    destruct (decide (invalid L2 m)); simpl; lia.
Qed.

(** X9: shrinking the chat in two steps gives the store of the single
    step: for [1 <= L2 <= L1], if some memory survives the call with
    [L1], then pruning for [L1] and then for [L2] leaves the same store
    as pruning for [L2] directly, and the memories pruned add up.
    (If the first call prunes every memory the second one
    short-circuits, and the equation need not hold.) *)
Theorem X9_two_steps (L1 L2 : nat) (data : store) (ms : list memory) :
  (1 ≤ L2)%nat → (L2 ≤ L1)%nat → memories data = Some ms →
  (∃ m, m ∈ ms ∧ ¬ out_of_range L1 m) →
  reconciled L2 (reconciled L1 data) = reconciled L2 data ∧
  prunedMemories (pruneReport L2 data)
  = (prunedMemories (pruneReport L1 data)
     + prunedMemories (pruneReport L2 (reconciled L1 data)))%nat.
Proof.
  intros H2 H21 Hms (m0 & Hm0 & Hvalid0).
  assert (Hne : ms ≠ []) by (intros ->; by apply elem_of_nil in Hm0).
  unfold reconciled, pruneReport.
  rewrite (prune_active L1 data ms) by (done || lia). simpl.
  set (kept := filter (λ m, ¬ invalid L1 m) ms).
  assert (Hkept : kept ≠ []).
  { intros Hnil. assert (Hin : m0 ∈ kept).
    { apply list_elem_of_filter. split; [|done]. by rewrite invalid_out_of_range. }
    rewrite Hnil in Hin. by apply elem_of_nil in Hin. }
  rewrite (prune_active L2 _ kept) by (done || lia).
  rewrite (prune_active L2 data ms) by (done || lia). simpl.
  split; [|apply count_two_step; lia].
  f_equal.
  - f_equal. unfold kept. rewrite list_filter_filter. apply list_filter_iff.
    intros m. split; [by intros [? _]|]. intros Hv. split; [done|].
    intros H1. apply Hv. by apply (invalid_mono L1).
  - rewrite each_value_compose. apply each_value_ext. intros cs k st _ _. simpl.
    apply character_state_eq.
    + rewrite !clean_state_known_events.
      destruct (known_events st) as [events|]; [|done]. simpl. f_equal.
      rewrite list_filter_filter. apply list_filter_iff. intros e.
      rewrite !scan_ids. split.
      * intros [Hk H1] (m & Hm & Hinv & Hid).
        destruct (decide (invalid L1 m)) as [Hi1|Hi1].
        -- apply H1. by exists m.
        -- apply Hk. exists m. split; [|done].
           apply list_elem_of_filter. by split.
      * intros Hd. split.
        -- intros (m & [_ Hm]%list_elem_of_filter & Hinv & Hid).
           apply Hd. by exists m.
        -- intros (m & Hm & Hinv & Hid). apply Hd. exists m.
           split; [done|]. split; [by apply (invalid_mono L1) | done].
    + rewrite !clean_state_emotion. by apply clamp_range_two_step.
  - rewrite each_value_compose. apply each_value_ext. intros rs k r _ _. simpl.
    unfold clean_relationship. simpl.
    by rewrite reset_cursor_two_step, filter_history_two_step.
  - by apply reset_cursor_two_step.
Qed.

Lemma X9_two_steps_witness :
  (1 ≤ 2)%nat ∧ (2 ≤ 3)%nat ∧
  reconciled 2 (reconciled 3 scenario) = reconciled 2 scenario ∧
  prunedMemories (pruneReport 2 scenario) = 1%nat.
Proof.
  split; [lia|]. split; [lia|].
  destruct (X9_two_steps 3 2 scenario
              [Memory "a" "first" (Some [0; 1]); Memory "b" "second" (Some [2; 9])])
    as [Hstore Hcount]; [lia | lia | reflexivity | |].
  { exists (Memory "a" "first" (Some [0; 1])). split; [left|].
    intros (i & Hi & Hge). simpl in Hi.
    apply elem_of_cons in Hi as [-> | ->%list_elem_of_singleton]; lia. }
  split; [done|]. rewrite Hcount. by vm_compute.
Defined.

(** * Properties of the host side *)

(** ** [getOpenVaultData] *)

(** X10: on a context, [getOpenVaultData] returns the store the context
    holds, or stores and returns the default store when there is none;
    an existing store is never replaced, the rest of the context is not
    touched, and a second call changes nothing and returns the same
    store. *)
Theorem X10_getOpenVaultData_lazy_init (c : context) :
  ∃ c' data,
    getOpenVaultData (Some c) = (Some c', Some data, []) ∧
    data = default default_store (store_of (Some c)) ∧
    store_of (Some c') = Some data ∧
    chat c' = chat c ∧ chatId c' = chatId c ∧
    chat_metadata c' = chat_metadata c ∧
    from_option other_keys ∅ (chatMetadata c')
      = from_option other_keys ∅ (chatMetadata c) ∧
    getOpenVaultData (Some c') = (Some c', Some data, []).
Proof.
  destruct c as [msgs cid info [[ov others]|]]; simpl;
    eexists _, _; split_and!; reflexivity.
Qed.

(** ** [getCurrentChatId] *)

Lemma js_or_null a : js_or a JNull = JNull ∨ truthy (js_or a JNull) = true.
Proof. unfold js_or. destruct (truthy a) eqn:Ha; [by right | by left]. Qed.

Lemma current_id_null_or_truthy ctx :
  getCurrentChatId ctx = JNull ∨ truthy (getCurrentChatId ctx) = true.
Proof. apply js_or_null. Qed.

(** X11: the current chat id is [null] or a truthy value, never
    [undefined], an empty string, [0] or [false]; a truthy [chatId]
    wins, and [chat_metadata.chat_id] is used only when [chatId] is
    falsy. *)
Theorem X11_current_chat_id (ctx : option context) :
  (getCurrentChatId ctx = JNull ∨ truthy (getCurrentChatId ctx) = true) ∧
  (∀ c, ctx = Some c → truthy (chatId c) = true →
        getCurrentChatId ctx = chatId c) ∧
  (∀ c info, ctx = Some c → truthy (chatId c) = false →
        chat_metadata c = Some info → truthy (chat_id info) = true →
        getCurrentChatId ctx = chat_id info) ∧
  (ctx = None → getCurrentChatId ctx = JNull).
Proof.
  split_and!.
  - apply current_id_null_or_truthy.
  - intros c -> Hc. unfold getCurrentChatId, js_or. cbn -[truthy].
    by rewrite Hc, Hc.
  - intros c info -> Hc Hinfo Hi. unfold getCurrentChatId, js_or. cbn -[truthy].
    rewrite Hc, Hinfo. cbn -[truthy]. by rewrite Hi.
  - by intros ->.
Qed.

(** ** [saveOpenVaultData] *)

Lemma save_aborts ctx dbg expected outcome :
  expected ≠ JNull → expected ≠ JUndefined → getCurrentChatId ctx ≠ expected →
  saveOpenVaultData ctx dbg expected outcome
  = (false, [ConsoleWarn (ChatChanged expected (getCurrentChatId ctx))]).
Proof.
  intros Hnull Hundef Hne. unfold saveOpenVaultData.
  destruct expected; try done;
    by rewrite !bool_decide_eq_true_2 by done.
Qed.

Lemma save_attempts ctx dbg expected outcome :
  expected = JNull ∨ expected = JUndefined ∨ getCurrentChatId ctx = expected →
  saveOpenVaultData ctx dbg expected outcome
  = match outcome with
    | None => (true, SaveChatConditional :: log dbg "Data saved to chat metadata")
    | Some message =>
        (false, [SaveChatConditional;
                 ConsoleError ("[OpenVault] Failed to save data: " +:+ message);
                 ShowToast "error" ("Failed to save data: " +:+ message)])
    end.
Proof.
  intros Hpass. unfold saveOpenVaultData.
  destruct Hpass as [-> | [-> | Hsame]]; [done | done |].
  destruct (decide (expected = JUndefined)) as [->|Hundef]; [done|].
  assert (Hexp : match expected with JUndefined => JNull | v => v end = expected)
    by (by destruct expected).
  rewrite Hexp.
  rewrite (bool_decide_eq_false_2 (getCurrentChatId ctx ≠ expected)) by tauto.
  by rewrite andb_false_r.
Qed.

Lemma save_not_in_warning w : SaveChatConditional ∉ [ConsoleWarn w].
Proof. intros Hin. apply list_elem_of_singleton in Hin. discriminate. Qed.

Lemma no_toast_in_warning w : ¬ Exists is_toast [ConsoleWarn w].
Proof. intros Hex. apply Exists_cons in Hex as [[] | Hex]. by apply Exists_nil in Hex. Qed.

(** X12: when an expected chat id is given (not [null], not
    [undefined]) and differs from the current chat id, nothing is
    saved: the result is [false], [saveChatConditional] is not called
    and no toast is shown, whatever the save would have given. *)
Theorem X12_save_refused_on_chat_change (ctx : option context) (dbg : bool)
    (expected : jsval) (outcome : option string) :
  expected ≠ JNull → expected ≠ JUndefined → getCurrentChatId ctx ≠ expected →
  (saveOpenVaultData ctx dbg expected outcome).1 = false ∧
  (SaveChatConditional ∉ (saveOpenVaultData ctx dbg expected outcome).2) ∧
  (¬ Exists is_toast (saveOpenVaultData ctx dbg expected outcome).2).
Proof.
  intros Hnull Hundef Hne. rewrite save_aborts by done. simpl.
  split_and!; [done | apply save_not_in_warning | apply no_toast_in_warning].
Qed.

Lemma X12_save_refused_on_chat_change_witness :
  JString "chat-2" ≠ JNull ∧ JString "chat-2" ≠ JUndefined ∧
  getCurrentChatId (Some scenario_context) = JString "chat-1" ∧
  saveOpenVaultData (Some scenario_context) true (JString "chat-2") None
  = (false, [ConsoleWarn (ChatChanged (JString "chat-2") (JString "chat-1"))]) ∧
  SaveChatConditional
    ∉ (saveOpenVaultData (Some scenario_context) true (JString "chat-2") None).2.
Proof.
  split_and!; [done | done | reflexivity | reflexivity |].
  apply (X12_save_refused_on_chat_change (Some scenario_context) true
           (JString "chat-2") None); done.
Defined.

(** X13: an expected id that is falsy without being [null] or
    [undefined] (an empty string, [0], [false]) can never equal the
    current chat id, so the save is refused in every context. *)
Theorem X13_falsy_expected_id_never_saves (ctx : option context) (dbg : bool)
    (expected : jsval) (outcome : option string) :
  truthy expected = false → expected ≠ JNull → expected ≠ JUndefined →
  (saveOpenVaultData ctx dbg expected outcome).1 = false ∧
  SaveChatConditional ∉ (saveOpenVaultData ctx dbg expected outcome).2.
Proof.
  intros Hfalsy Hnull Hundef.
  assert (Hne : getCurrentChatId ctx ≠ expected).
  { intros Heq. destruct (current_id_null_or_truthy ctx) as [Hn|Ht].
    - apply Hnull. by rewrite <- Heq.
    - rewrite Heq in Ht. congruence. }
  rewrite save_aborts by done. simpl. split; [done | apply save_not_in_warning].
Qed.

Lemma X13_falsy_expected_id_never_saves_witness :
  truthy (JString "") = false ∧ JString "" ≠ JNull ∧ JString "" ≠ JUndefined ∧
  (saveOpenVaultData None false (JString "") None).1 = false ∧
  SaveChatConditional ∉ (saveOpenVaultData None false (JString "") None).2.
Proof.
  split_and!; [reflexivity | done | done | |];
    apply (X13_falsy_expected_id_never_saves None false (JString "") None); done.
Defined.

(** X14: a save that expects the id [getCurrentChatId] returns in the
    same context is always attempted, exactly once, and its result is
    [true] exactly when [saveChatConditional] resolves. *)
Theorem X14_save_with_current_id (ctx : option context) (dbg : bool)
    (outcome : option string) :
  let r := saveOpenVaultData ctx dbg (getCurrentChatId ctx) outcome in
  SaveChatConditional ∈ r.2 ∧
  length (filter (λ e, e = SaveChatConditional) r.2) = 1%nat ∧
  (r.1 = true ↔ outcome = None).
Proof.
  simpl. rewrite save_attempts by (right; by right).
  destruct outcome as [message|]; simpl.
  - split_and!; [left | done | done].
  - split_and!; [left | by destruct dbg | done].
Qed.


(** ** [pruneMemoriesForBranch] on the context *)

Lemma prune_in_context (c : context) :
  ∃ c',
    pruneMemoriesForBranch_ctx (Some c)
    = (Some c',
       pruneReport (length (default [] (chat c)))
                   (default default_store (store_of (Some c))), []) ∧
    store_of (Some c')
    = Some (reconciled (length (default [] (chat c)))
                       (default default_store (store_of (Some c)))).
Proof.
  unfold pruneMemoriesForBranch_ctx, pruneReport, reconciled.
  assert (Hdata : getOpenVaultData (Some c)
                  = (Some (set_openvault (default default_store (store_of (Some c))) c),
                     Some (default default_store (store_of (Some c))), [])).
  { by destruct c as [msgs cid info [[ov others]|]]. }
  rewrite Hdata. simpl.
  destruct (pruneMemoriesForBranch _ _) as [data' rep]. simpl.
  eexists. split; reflexivity.
Qed.


(** X17: without a context, with an absent or empty chat, or with no
    store yet, nothing is pruned: the report is zero and the context
    holds the store it held, or the default store if it held none. *)
Theorem X17_nothing_to_prune (ctx : option context) :
  ctx = None ∨ default [] (ctx ≫= chat) = [] ∨ store_of ctx = None →
  (pruneMemoriesForBranch_ctx ctx).1.2 = Report 0 0 0 ∧
  store_of (pruneMemoriesForBranch_ctx ctx).1.1
    = (λ _, default default_store (store_of ctx)) <$> ctx.
Proof.
  intros Hcase. destruct ctx as [c|]; [|done].
  destruct (prune_in_context c) as (c' & Hrun & Hstore).
  rewrite Hrun. cbn [fst snd]. rewrite Hstore.
  destruct Hcase as [Hnone | [Hchat | Hstore0]]; [done | |].
  - simpl in Hchat. unfold pruneReport, reconciled.
    rewrite prune_short by (left; by rewrite Hchat). done.
  - unfold pruneReport, reconciled. rewrite Hstore0. simpl.
    rewrite prune_short by (by right). done.
Qed.

Lemma X17_nothing_to_prune_witness :
  store_of (Some fresh_context) = None ∧
  (pruneMemoriesForBranch_ctx (Some fresh_context)).1.2 = Report 0 0 0 ∧
  store_of (pruneMemoriesForBranch_ctx (Some fresh_context)).1.1
    = Some default_store.
Proof.
  split; [reflexivity|].
  apply (X17_nothing_to_prune (Some fresh_context)). right. by right.
Defined.
